(** * Monsti service client: node codec, sticky error and signal dispatch

    A shallow embedding of the Go package [service] (the Monsti RPC
    client) and the properties of its node codec ([nodeToData],
    [dataToNode]), of the sticky connection error carried by
    [MonstiClient], of [getConfig], [GetRequest] and [WaitSignal].

    Conventions of the embedding:
    - a Go [string] is a [string], a [[]byte] is a [list byte], a [uint]
      is an [N] (the code only compares them);
    - a Go [error] is a value with a dynamic type name and a message; a
      nil error is [None];
    - a function returning [(T, error)] returns a pair; a nil pointer or a
      nil slice result is [None] or [[]];
    - a run-time panic (nil dereference, index out of range, call of a nil
      func) is the outcome [Panic];
    - memory that the code mutates through a pointer ([*Node]) lives in a
      heap of the [World]; transport calls, handler invocations and field
      loads are recorded in the world's [trace]. *)

From Stdlib Require Import Strings.Byte.
From stdpp Require Import gmap strings list fin_maps countable.

Local Open Scope string_scope.
Local Open Scope list_scope.

(** ** Go values *)

Definition bytes := list byte.

Record error := mkError { dyn_type : string; Error_msg : string }.

(** [errors.New] and the [*errors.errorString] it returns. *)
Definition errors_New (msg : string) : error :=
  {| dyn_type := "*errors.errorString"; Error_msg := msg |}.

(** [fmt.Errorf(format ++ "%v", err)]: every wrapper of the package ends
    its format in the verb [%v] applied to an error, which prints the
    error's message. *)
Definition fmt_Errorf_v (prefix : string) (err : error) : error :=
  errors_New (prefix +:+ Error_msg err).

(** [fmt.Errorf(format, err)] where [format] has no verb: the operand is
    reported as an extra one, with its dynamic type. *)
Definition fmt_Errorf_extra (format : string) (err : error) : error :=
  errors_New (format +:+ "%!(EXTRA " +:+ dyn_type err +:+ "=" +:+ Error_msg err +:+ ")").

(** What a call can do other than diverge: return, or panic. *)
Inductive outcome (A : Type) : Type :=
| Done (a : A)
| Panic (reason : string).
Arguments Done {A} a.
Arguments Panic {A} reason.

Definition nil_dereference : string :=
  "runtime error: invalid memory address or nil pointer dereference".
Definition index_out_of_range : string :=
  "runtime error: index out of range".

(** ** [strings.SplitN] *)

Fixpoint has_prefix (p s : string) : bool :=
  match p, s with
  | EmptyString, _ => true
  | String a p', String b s' => if Ascii.eqb a b then has_prefix p' s' else false
  | String _ _, EmptyString => false
  end.

Fixpoint drop_chars (n : nat) (s : string) : string :=
  match n, s with
  | O, _ => s
  | S n', String _ s' => drop_chars n' s'
  | S _, EmptyString => EmptyString
  end.

(** The text before and after the first occurrence of [sep] in [s]. *)
Fixpoint strings_Cut (sep s : string) : option (string * string) :=
  if has_prefix sep s then Some (EmptyString, drop_chars (String.length sep) s)
  else match s with
       | EmptyString => None
       | String c s' =>
           match strings_Cut sep s' with
           | Some (before, after) => Some (String c before, after)
           | None => None
           end
       end.

(** [strings.SplitN(s, sep, n)] for a non-empty separator and [n >= 0]:
    at most [n] substrings, the last one being the unsplit remainder. *)
Fixpoint strings_SplitN (s sep : string) (n : nat) : list string :=
  match n with
  | O => []
  | S O => [s]
  | S n' =>
      match strings_Cut sep s with
      | Some (before, after) => before :: strings_SplitN after sep n'
      | None => [s]
      end
  end.

(** [parts[i]] on a slice: out of range panics. *)
Definition index {A} (l : list A) (i : nat) : outcome A :=
  match l !! i with
  | Some x => Done x
  | None => Panic index_out_of_range
  end.

(** ** Types of the package that the code uses *)

(** The types the package takes from elsewhere: [interface{}] payloads,
    [time.Time], the [Field] interface (one type for all its
    implementations), the field kinds and [mimemail.Mail]. *)
Class Types := {
  Value : Type;
  Time : Type;
  Field : Type;
  FieldType : Type;
  Mail : Type;
}.

Section Data.
Context {T : Types}.

(** Modelled from the spec: the declarations of [FieldConfig], [NodeType]
    and [Node] are not in the sources at hand. The code reads [field.Id],
    [node.Type.Id], [node.Type.Fields], [node.LocalFields], [node.Fields],
    [node.Path] and writes [node.Changed]; the spec gives a node a path, a
    reference to its type, a last-changed time and its field values. *)
Record FieldConfig := {
  fc_Id : string;
  fc_Type : FieldType;
}.

Record NodeType := {
  nt_Id : string;
  nt_Fields : list FieldConfig;
}.

Record Node := {
  Path : string;
  Type_ : option NodeType;          (* *NodeType, nil-able *)
  Changed : Time;
  Fields : gmap string Field;       (* map[string]Field *)
  LocalFields : list FieldConfig;
}.

Definition Node_set_Path (p : string) (n : Node) : Node :=
  {| Path := p; Type_ := Type_ n; Changed := Changed n;
     Fields := Fields n; LocalFields := LocalFields n |}.
Definition Node_set_Type (t : option NodeType) (n : Node) : Node :=
  {| Path := Path n; Type_ := t; Changed := Changed n;
     Fields := Fields n; LocalFields := LocalFields n |}.
Definition Node_set_Changed (c : Time) (n : Node) : Node :=
  {| Path := Path n; Type_ := Type_ n; Changed := c;
     Fields := Fields n; LocalFields := LocalFields n |}.
Definition Node_set_Fields (f : gmap string Field) (n : Node) : Node :=
  {| Path := Path n; Type_ := Type_ n; Changed := Changed n;
     Fields := f; LocalFields := LocalFields n |}.

(** [type nodeJSON struct { Node; Type string; Fields map[string]map[string]*json.RawMessage }].
    A nil [*json.RawMessage] and a missing key read the same way in the
    code ([value != nil]), so a raw dump is present or absent. *)
Record nodeJSON := {
  nj_Node : Node;
  nj_Type : string;
  nj_Fields : gmap string (gmap string bytes);
}.

Definition nodeJSON_set_Fields (f : gmap string (gmap string bytes))
    (j : nodeJSON) : nodeJSON :=
  {| nj_Node := nj_Node j; nj_Type := nj_Type j; nj_Fields := f |}.

(** [User], [UserSession] and [Request]. [url.Values] is a
    [map[string][]string]. *)
Record User := {
  Login : string;
  Name : string;
  Email : string;
  Password : string;
  PasswordChanged : Time;
}.

Record UserSession := {
  User_ : option User;
  Locale : string;
}.

Definition url_Values := gmap string (list string).

Definition RequestMethod := N.
Definition GetRequest_method : RequestMethod := 0%N.
Definition PostRequest : RequestMethod := 1%N.

Definition Action := N.
Definition ViewAction : Action := 0%N.
Definition EditAction : Action := 1%N.
Definition LoginAction : Action := 2%N.
Definition LogoutAction : Action := 3%N.
Definition AddAction : Action := 4%N.
Definition RemoveAction : Action := 5%N.
Definition RequestPasswordTokenAction : Action := 6%N.
Definition ChangePasswordAction : Action := 7%N.

Record Request := {
  Id : N;
  NodePath : string;
  Site : string;
  Query : url_Values;
  Method : RequestMethod;
  Session : option UserSession;
  Action_ : Action;
  FormData : url_Values;
}.

(** The zero value of [Request] ([var req Request]). *)
Definition Request_zero : Request :=
  {| Id := 0%N; NodePath := ""; Site := ""; Query := ∅; Method := 0%N;
     Session := None; Action_ := 0%N; FormData := ∅ |}.

(** [MonstiClient]: the embedded [Client] carries the sticky [Error] and
    the connection [Id]; its [RPCClient] is the transport of the world. *)
Record MonstiClient := {
  Error : option error;
  Client_Id : string;
  SignalHandlers : gmap string (Value → Value * option error);
}.

(** ** The transport *)

(** One constructor per remote procedure the client calls, with the
    argument it sends. *)
Inductive RPCCall :=
| Monsti_ModuleInitDone (module : string)
| Monsti_GetNode (site path : string)
| Monsti_GetChildren (site path : string)
| Monsti_GetNodeData (site path file : string)
| Monsti_WriteNodeData (site path file : string) (content : bytes)
| Monsti_RemoveNode (site node : string)
| Monsti_RenameNode (site source target : string)
| Monsti_GetSiteConfig (site name : string)
| Monsti_RegisterNodeType (nodeType : NodeType)
| Monsti_GetNodeType (nodeTypeID : string)
| Monsti_GetAddableNodeTypes (site nodeType : string)
| Monsti_GetRequest (id : N)
| Monsti_GetNodeTypes
| Monsti_PublishService (service path : string)
| Monsti_SendMail (m : Mail)
| Monsti_ConnectSignal (id signal : string)
| Monsti_EmitSignal (name : string) (args : bytes)
| Monsti_WaitSignal (id : string)
| Monsti_FinishSignal (id : string) (ret : bytes).

(** The type of the reply variable each call site passes. *)
Definition Reply (c : RPCCall) : Type :=
  match c with
  | Monsti_GetNode _ _ => bytes
  | Monsti_GetChildren _ _ => list bytes
  | Monsti_GetNodeData _ _ _ => bytes
  | Monsti_GetSiteConfig _ _ => bytes
  | Monsti_GetNodeType _ => NodeType
  | Monsti_GetAddableNodeTypes _ _ => list string
  | Monsti_GetRequest _ => Request
  | Monsti_GetNodeTypes => list string
  | Monsti_EmitSignal _ _ => list bytes
  | Monsti_WaitSignal _ => string * bytes
  | _ => Z
  end.

(** What happens in the world, in order. *)
Inductive Event :=
| EvCall (c : RPCCall)                       (* s.RPCClient.Call *)
| EvHandle (name : string) (arg : Value)     (* a signal handler is invoked *)
| EvLoad (id : string) (raw : bytes)         (* Field.Load is invoked *)
| EvRegisterName (name : string).            (* gob.RegisterName *)

Definition is_handle (e : Event) : bool :=
  match e with EvHandle _ _ => true | _ => false end.

(** The invocations of signal handlers, oldest first. *)
Definition handler_calls (tr : list Event) : list Event := filter is_handle tr.

Record World := {
  heap : gmap positive Node;   (* the nodes reachable through a [*Node] *)
  trace : list Event;          (* oldest first *)
  ticks : nat;                 (* readings of the clock so far *)
}.

Definition World_set_heap (h : gmap positive Node) (w : World) : World :=
  {| heap := h; trace := trace w; ticks := ticks w |}.
Definition World_log (e : Event) (w : World) : World :=
  {| heap := heap w; trace := trace w ++ [e]; ticks := ticks w |}.
Definition World_tick (w : World) : World :=
  {| heap := heap w; trace := trace w; ticks := S (ticks w) |}.

End Data.

(** ** What the package calls but does not define *)

(** The behaviour of the libraries and of the broker, as functions:
    - [rpc_Call tr c] is what [s.RPCClient.Call] returns for the call [c]
      when [tr] has happened before: an error, or the decoded reply;
    - [clock n] is the [n]-th reading of [time.Now];
    - [Field_Dump], [Field_Load] are the methods of the [Field] interface
      ([Load] is handed the raw dump through its decoding callback and
      gives the field's new state), [Field_new] builds the empty field of
      a configured kind;
    - [json_*] and [gob_*] are [encoding/json] and [encoding/gob] at the
      types the code uses them; [reflect_MapKeys] lists the keys of a map
      in the order [reflect.Value.MapKeys] happens to give. *)
Class Externals {T : Types} := {
  rpc_Call : list Event → ∀ c : RPCCall, error + Reply c;
  clock : nat → Time;
  Time_UTC : Time → Time;
  Field_Dump : Field → Value;
  Field_Load : Field → bytes → Field * option error;
  Field_new : FieldConfig → error + Field;
  json_Marshal : Value → error + bytes;
  json_Marshal_node : nodeJSON → error + bytes;
  json_MarshalIndent_node : nodeJSON → error + bytes;
  json_Unmarshal_node : bytes → error + nodeJSON;
  json_Unmarshal_map : bytes → error + gmap string (option Value);
  reflect_MapKeys : gmap string (option Value) → list string;
  gob_Encode : Value → error + bytes;
  gob_Decode : bytes → error + Value;
  strconv_Quote : string → string;
}.

Section Code.
Context {T : Types} {X : Externals}.

(** ** The monad of the code: a world threaded through, panics *)

Definition M (A : Type) : Type := World → outcome A * World.

#[export] Instance M_ret : MRet M := λ A a w, (Done a, w).
#[export] Instance M_bind : MBind M := λ A B f m w,
  match m w with
  | (Done a, w') => f a w'
  | (Panic r, w') => (Panic r, w')
  end.

Definition panic {A} (reason : string) : M A := λ w, (Panic reason, w).

Definition lift {A} (o : outcome A) : M A := λ w, (o, w).

(** Reading through a pointer or calling a method of an interface value:
    nil panics. *)
Definition non_nil {A} (o : option A) : M A :=
  match o with
  | Some a => mret a
  | None => panic nil_dereference
  end.

Definition deref (p : positive) : M Node := λ w,
  match heap w !! p with
  | Some n => (Done n, w)
  | None => (Panic nil_dereference, w)
  end.

Definition store (p : positive) (n : Node) : M unit := λ w,
  (Done tt, World_set_heap (<[p := n]> (heap w)) w).

Definition log (e : Event) : M unit := λ w, (Done tt, World_log e w).

(** [time.Now()] *)
Definition time_Now : M Time := λ w, (Done (clock (ticks w)), World_tick w).

(** [s.RPCClient.Call(name, args, &reply)] *)
Definition RPCClient_Call (c : RPCCall) : M (error + Reply c) := λ w,
  (Done (rpc_Call (trace w) c), World_log (EvCall c) w).

(** [defer d] in front of [body]: [d] runs when [body] returns and when
    it panics. *)
Definition defer {A} (d : M unit) (body : M A) : M A := λ w,
  let '(r, w1) := body w in
  match d w1 with
  | (Done _, w2) => (r, w2)
  | (Panic p, w2) => (Panic p, w2)
  end.

(** [for _, x := range l { body }] over a loop state; the body ends an
    iteration with the next state ([inl]) or leaves the function with
    [return v] ([inr]). *)
Fixpoint for_range {A S R} (l : list A) (body : A → S → M (S + R)) (s : S)
    : M (S + R) :=
  match l with
  | [] => mret (inl s)
  | x :: l' =>
      r ← body x s;
      match r with
      | inl s' => for_range l' body s'
      | inr v => mret (inr v)
      end
  end.

(** The same without [return] in the body. *)
Fixpoint for_each {A S} (l : list A) (body : A → S → M S) (s : S) : M S :=
  match l with
  | [] => mret s
  | x :: l' => s' ← body x s; for_each l' body s'
  end.

(** ** The node codec *)

(** The body of the loop of [nodeToData]. [group] is the inner map under
    [parts[0]], made on the spot when there is none yet. *)
Definition dump_field (n : Node) (field : FieldConfig) (outNode : nodeJSON)
    : M (nodeJSON + bytes * option error) :=
  let parts := strings_SplitN (fc_Id field) "." 2 in
  f ← non_nil (Fields n !! fc_Id field);
  match json_Marshal (Field_Dump f) with
  | inl err => mret (inr ([], Some (fmt_Errorf_v "Could not marshal field: " err)))
  | inr dump =>
      p0 ← lift (index parts 0);
      let group := default ∅ (nj_Fields outNode !! p0) in
      p1 ← lift (index parts 1);
      mret (inl (nodeJSON_set_Fields
                   (<[p0 := <[p1 := dump]> group]> (nj_Fields outNode)) outNode))
  end.

(** [nodeToData] after its [defer]: the node is read with its path
    cleared. *)
Definition encode_node (n : Node) (indent : bool) : M (bytes * option error) :=
  t ← non_nil (Type_ n);
  let outNode := {| nj_Node := n; nj_Type := nt_Id t; nj_Fields := ∅ |} in
  let nodeFields := nt_Fields t ++ LocalFields n in
  r ← for_range nodeFields (dump_field n) outNode;
  match r with
  | inr ret => mret ret
  | inl outNode =>
      match (if indent then json_MarshalIndent_node outNode
             else json_Marshal_node outNode) with
      | inl err =>
          mret ([], Some (fmt_Errorf_v "service: Could not marshal node: " err))
      | inr data => mret (data, None)
      end
  end.

Definition nodeToData (node : positive) (indent : bool) : M (bytes * option error) :=
  n0 ← deref node;
  let path := Path n0 in
  store node (Node_set_Path "" n0);;
  defer (n ← deref node; store node (Node_set_Path path n))
    (n ← deref node; encode_node n indent).

(** Modelled from the spec: [Node.InitFields] is not in the sources at
    hand. It "initializes an empty Field object for every declared field
    and local field" and can fail. *)
Definition init_field (field : FieldConfig) (fields : gmap string Field)
    : M (gmap string Field + error) :=
  match Field_new field with
  | inl err => mret (inr err)
  | inr f => mret (inl (<[fc_Id field := f]> fields))
  end.

Definition InitFields (n : Node) (m : MonstiClient) (site : string)
    : M (Node * option error) :=
  t ← non_nil (Type_ n);
  r ← for_range (nt_Fields t ++ LocalFields n) init_field ∅;
  match r with
  | inr err => mret (n, Some err)
  | inl fields => mret (Node_set_Fields fields n, None)
  end.

(** The body of the loop of [dataToNode]. *)
Definition load_field (node : nodeJSON) (field : FieldConfig) (ret : Node)
    : M Node :=
  let parts := strings_SplitN (fc_Id field) "." 2 in
  p0 ← lift (index parts 0);
  p1 ← lift (index parts 1);
  match default ∅ (nj_Fields node !! p0) !! p1 with
  | Some value =>
      f ← non_nil (Fields ret !! fc_Id field);
      log (EvLoad (fc_Id field) value);;
      let '(f', _) := Field_Load f value in
      mret (Node_set_Fields (<[fc_Id field := f']> (Fields ret)) ret)
  | None => mret ret
  end.

Definition dataToNode (data : bytes)
    (getNodeType : string → M (option NodeType * option error))
    (m : MonstiClient) (site : string) : M (option Node * option error) :=
  if decide (length data = 0) then mret (None, None) else
  match json_Unmarshal_node data with
  | inl err =>
      mret (None, Some (fmt_Errorf_v "service: Could not unmarshal node: " err))
  | inr node =>
      let ret := nj_Node node in
      '(t, err) ← getNodeType (nj_Type node);
      let ret := Node_set_Type t ret in
      match err with
      | Some err =>
          mret (None, Some (fmt_Errorf_v
            ("Could not get node type " +:+ strconv_Quote (nj_Type node) +:+ ": ") err))
      | None =>
          '(ret, err) ← InitFields ret m site;
          match err with
          | Some err =>
              mret (None, Some (fmt_Errorf_v "Could not init node fields: " err))
          | None =>
              t ← non_nil (Type_ ret);
              let nodeFields := nt_Fields t ++ LocalFields ret in
              ret ← for_each nodeFields (load_field node) ret;
              mret (Some ret, None)
          end
      end
  end.

(** ** The operations of [MonstiClient] *)

Definition ModuleInitDone (s : MonstiClient) (module : string) : M (option error) :=
  match Error s with
  | Some _ => mret (Error s)
  | None =>
      r ← RPCClient_Call (Monsti_ModuleInitDone module);
      match r with
      | inl err => mret (Some (fmt_Errorf_v "service: ModuleInitDone error: " err))
      | inr _ => mret None
      end
  end.

Definition WriteNodeData (s : MonstiClient) (site path file : string)
    (content : bytes) : M (option error) :=
  match Error s with
  | Some _ => mret None
  | None =>
      r ← RPCClient_Call (Monsti_WriteNodeData site path file content);
      match r with
      | inl err => mret (Some (fmt_Errorf_v "service: WriteNodeData error: " err))
      | inr _ => mret None
      end
  end.

Definition WriteNode (s : MonstiClient) (site path : string) (node : positive)
    : M (option error) :=
  match Error s with
  | Some _ => mret None
  | None =>
      now ← time_Now;
      n ← deref node;
      store node (Node_set_Changed (Time_UTC now) n);;
      '(data, err) ← nodeToData node true;
      match err with
      | Some err => mret (Some (fmt_Errorf_v "service: Could not convert node: " err))
      | None =>
          err ← WriteNodeData s site path "node.json" data;
          match err with
          | Some err => mret (Some (fmt_Errorf_v "service: Could not write node: " err))
          | None => mret None
          end
      end
  end.

Definition GetNodeType (s : MonstiClient) (nodeTypeID : string)
    : M (option NodeType * option error) :=
  match Error s with
  | Some _ => mret (None, Error s)
  | None =>
      r ← RPCClient_Call (Monsti_GetNodeType nodeTypeID);
      match r with
      | inl err =>
          mret (None, Some (fmt_Errorf_v "service: Error calling GetNodeType: " err))
      | inr nodeType => mret (Some nodeType, None)
      end
  end.

Definition GetNode (s : MonstiClient) (site path : string)
    : M (option Node * option error) :=
  match Error s with
  | Some _ => mret (None, None)
  | None =>
      r ← RPCClient_Call (Monsti_GetNode site path);
      match r with
      | inl err => mret (None, Some (fmt_Errorf_v "service: GetNode error: " err))
      | inr reply =>
          '(node, err) ← dataToNode reply (GetNodeType s) s site;
          match err with
          | Some err =>
              mret (None, Some (fmt_Errorf_v "service: Could not convert node: " err))
          | None => mret (node, None)
          end
      end
  end.

(** The body of the loop of [GetChildren]. *)
Definition convert_entry (s : MonstiClient) (site : string) (entry : bytes)
    (nodes : list (option Node))
    : M (list (option Node) + list (option Node) * option error) :=
  '(node, err) ← dataToNode entry (GetNodeType s) s site;
  match err with
  | Some err =>
      mret (inr ([], Some (fmt_Errorf_v "service: Could not convert node: " err)))
  | None => mret (inl (nodes ++ [node]))
  end.

Definition GetChildren (s : MonstiClient) (site path : string)
    : M (list (option Node) * option error) :=
  match Error s with
  | Some _ => mret ([], Error s)
  | None =>
      r ← RPCClient_Call (Monsti_GetChildren site path);
      match r with
      | inl err => mret ([], Some (fmt_Errorf_v "service: GetChildren error: " err))
      | inr reply =>
          r ← for_range reply (convert_entry s site) [];
          match r with
          | inr ret => mret ret
          | inl nodes => mret (nodes, None)
          end
      end
  end.

Definition GetNodeData (s : MonstiClient) (site path file : string)
    : M (bytes * option error) :=
  match Error s with
  | Some _ => mret ([], Error s)
  | None =>
      r ← RPCClient_Call (Monsti_GetNodeData site path file);
      match r with
      | inl err => mret ([], Some (fmt_Errorf_extra "service: GetNodeData error:" err))
      | inr reply => mret (reply, None)
      end
  end.

Definition RemoveNode (s : MonstiClient) (site node : string) : M (option error) :=
  match Error s with
  | Some _ => mret None
  | None =>
      r ← RPCClient_Call (Monsti_RemoveNode site node);
      match r with
      | inl err => mret (Some (fmt_Errorf_v "service: RemoveNode error: " err))
      | inr _ => mret None
      end
  end.

Definition RenameNode (s : MonstiClient) (site source target : string)
    : M (option error) :=
  match Error s with
  | Some _ => mret None
  | None =>
      r ← RPCClient_Call (Monsti_RenameNode site source target);
      match r with
      | inl err => mret (Some (fmt_Errorf_v "service: RenameNode error: " err))
      | inr _ => mret None
      end
  end.

(** [getConfig(reply, out)]: [out] holds a pointer; the function is given
    the value it points to and returns the value it points to afterwards.
    The reply is decoded into a map from names to pointers (nil for a JSON
    null); the value under the first of [MapKeys()] is copied out, and
    [MapKeys()[0]] on a map without keys is an index out of range. *)
Definition getConfig (reply : bytes) (out : Value) : outcome (option error * Value) :=
  if decide (length reply = 0) then Done (None, out) else
  match json_Unmarshal_map reply with
  | inl err =>
      Done (Some (fmt_Errorf_v "service: Could not decode configuration: " err), out)
  | inr object =>
      match index (reflect_MapKeys object) 0 with
      | Panic r => Panic r
      | Done key =>
          match default None (object !! key) with
          | Some value => Done (None, value)
          | None => Done (None, out)
          end
      end
  end.

Definition GetSiteConfig (s : MonstiClient) (site name : string) (out : Value)
    : M (option error * Value) :=
  match Error s with
  | Some _ => mret (Error s, out)
  | None =>
      r ← RPCClient_Call (Monsti_GetSiteConfig site name);
      match r with
      | inl err => mret (Some (fmt_Errorf_v "service: GetSiteConfig error: " err), out)
      | inr reply => lift (getConfig reply out)
      end
  end.

Definition RegisterNodeType (s : MonstiClient) (nodeType : NodeType)
    : M (option error) :=
  match Error s with
  | Some _ => mret (Error s)
  | None =>
      r ← RPCClient_Call (Monsti_RegisterNodeType nodeType);
      match r with
      | inl err =>
          mret (Some (fmt_Errorf_v "service: Error calling RegisterNodeType: " err))
      | inr _ => mret None
      end
  end.

Definition GetAddableNodeTypes (s : MonstiClient) (site nodeType : string)
    : M (list string * option error) :=
  match Error s with
  | Some _ => mret ([], Error s)
  | None =>
      r ← RPCClient_Call (Monsti_GetAddableNodeTypes site nodeType);
      match r with
      | inl err =>
          mret ([], Some (fmt_Errorf_v "service: Error calling GetAddableNodeTypes: " err))
      | inr types => mret (types, None)
      end
  end.

Definition GetRequest (s : MonstiClient) (id : N) : M (option Request * option error) :=
  match Error s with
  | Some _ => mret (None, Error s)
  | None =>
      r ← RPCClient_Call (Monsti_GetRequest id);
      match r with
      | inl err =>
          mret (None, Some (fmt_Errorf_v "service: Monsti.GetRequest error: " err))
      | inr req =>
          if decide (Id req ≠ id) then mret (None, None)
          else mret (Some req, None)
      end
  end.

Definition GetNodeTypes (s : MonstiClient) : M (list string * option error) :=
  match Error s with
  | Some _ => mret ([], Error s)
  | None =>
      r ← RPCClient_Call Monsti_GetNodeTypes;
      match r with
      | inl err =>
          mret ([], Some (fmt_Errorf_v "service: RPC error for GetNodeTypes: " err))
      | inr res => mret (res, None)
      end
  end.

Definition PublishService (s : MonstiClient) (service path : string)
    : M (option error) :=
  match Error s with
  | Some _ => mret (Error s)
  | None =>
      r ← RPCClient_Call (Monsti_PublishService service path);
      match r with
      | inl err =>
          mret (Some (fmt_Errorf_v "service: Error calling PublishService: " err))
      | inr _ => mret None
      end
  end.

Definition SendMail (s : MonstiClient) (m : Mail) : M (option error) :=
  match Error s with
  | Some _ => mret (Error s)
  | None =>
      r ← RPCClient_Call (Monsti_SendMail m);
      match r with
      | inl err => mret (Some (fmt_Errorf_v "service: Monsti.SendMail error: " err))
      | inr _ => mret None
      end
  end.

(** ** Signals *)

Definition MonstiClient_set_SignalHandlers
    (h : gmap string (Value → Value * option error)) (s : MonstiClient)
    : MonstiClient :=
  {| Error := Error s; Client_Id := Client_Id s; SignalHandlers := h |}.

(** [AddSignalHandler(handler)], with [handler.Name()] and
    [handler.Handle] given; returns the client as it is afterwards. *)
Definition AddSignalHandler (s : MonstiClient) (name : string)
    (handle : Value → Value * option error) : M (option error * MonstiClient) :=
  match Error s with
  | Some _ => mret (Error s, s)
  | None =>
      r ← RPCClient_Call (Monsti_ConnectSignal (Client_Id s) name);
      match r with
      | inl err =>
          mret (Some (fmt_Errorf_v "service: Monsti.ConnectSignal error: " err), s)
      | inr _ =>
          mret (None, MonstiClient_set_SignalHandlers
                        (<[name := handle]> (SignalHandlers s)) s)
      end
  end.

(** The body of the loop of [EmitSignal]: the loop state is the index and
    the slice [*retarg]. *)
Definition decode_answer (answer : bytes) (st : nat * list Value)
    : M (nat * list Value + option error * list Value) :=
  let '(i, retarg) := st in
  match gob_Decode answer with
  | inl err =>
      mret (inr (Some (fmt_Errorf_v
                   "service: Could not decode signal return value: " err), retarg))
  | inr ret_ => mret (inl (S i, <[i := ret_]> retarg))
  end.

(** [EmitSignal(name, args, retarg)]: [retarg] points to a slice; [zero]
    is the zero value of its element type, which the code gets by
    reflection. Returns the slice as it is afterwards. *)
Definition EmitSignal (s : MonstiClient) (name : string) (args : Value)
    (zero : Value) (retarg : list Value) : M (option error * list Value) :=
  match Error s with
  | Some _ => mret (Error s, retarg)
  | None =>
      log (EvRegisterName (name +:+ "Ret"));;
      log (EvRegisterName (name +:+ "Args"));;
      match gob_Encode args with
      | inl err =>
          mret (Some (fmt_Errorf_v
                  "service: Could not encode signal argumens: " err), retarg)
      | inr buffer =>
          r ← RPCClient_Call (Monsti_EmitSignal name buffer);
          match r with
          | inl err =>
              mret (Some (fmt_Errorf_v "service: Monsti.EmitSignal error: " err), retarg)
          | inr ret =>
              let retarg := replicate (length ret) zero in
              r ← for_range ret decode_answer (0, retarg);
              match r with
              | inr res => mret res
              | inl (_, retarg) => mret (None, retarg)
              end
          end
      end
  end.

(** [WaitSignal()]. The handler is looked up in [s.SignalHandlers] and
    called at once: for a name without an entry this is the call of a nil
    func. *)
Definition WaitSignal (s : MonstiClient) : M (option error) :=
  match Error s with
  | Some _ => mret (Error s)
  | None =>
      r ← RPCClient_Call (Monsti_WaitSignal (Client_Id s));
      match r with
      | inl err => mret (Some (fmt_Errorf_v "service: Monsti.WaitSignal error: " err))
      | inr signal =>
          match gob_Decode signal.2 with
          | inl err =>
              mret (Some (fmt_Errorf_v
                      "service: Could not decode signal argumens: " err))
          | inr args_ =>
              handler ← non_nil (SignalHandlers s !! signal.1);
              log (EvHandle signal.1 args_);;
              let '(ret, err) := handler args_ in
              match err with
              | Some err =>
                  mret (Some (fmt_Errorf_v
                          ("service: Signal handler for " +:+ signal.1 +:+
                           " returned error: ") err))
              | None =>
                  match gob_Encode ret with
                  | inl err =>
                      mret (Some (fmt_Errorf_v
                              "service: Could not encode signal return value: " err))
                  | inr buffer =>
                      r ← RPCClient_Call (Monsti_FinishSignal (Client_Id s) buffer);
                      match r with
                      | inl err =>
                          mret (Some (fmt_Errorf_v
                                  "service: Monsti.FinishSignal error: " err))
                      | inr _ => mret None
                      end
                  end
              end
          end
      end
  end.

(** ** What the statements about the codec talk about *)

(** The fields a node has by its type and by itself, in the order of the
    two loops. *)
Definition declared (t : NodeType) (n : Node) : list FieldConfig :=
  nt_Fields t ++ LocalFields n.

(** The raw dump an envelope holds for a field id ["group.name"]. *)
Definition raw_of (fields : gmap string (gmap string bytes)) (id : string)
    : option bytes :=
  match strings_Cut "." id with
  | Some (group, name) => default ∅ (fields !! group) !! name
  | None => None
  end.

(** The raw dump of the field a node has under an id. *)
Definition dumped (n : Node) (id : string) : option bytes :=
  match Fields n !! id with
  | Some f =>
      match json_Marshal (Field_Dump f) with
      | inr raw => Some raw
      | inl _ => None
      end
  | None => None
  end.

(** What [encoding/json] carries of the node embedded in an envelope: its
    [Type] and [Fields] are hidden by the envelope's own. *)
Definition Node_on_wire (n : Node) : Node :=
  Node_set_Fields ∅ (Node_set_Type None n).

(** An envelope with every raw dump carried as it is. *)
Definition payload (e : nodeJSON) : nodeJSON :=
  {| nj_Node := Node_on_wire (nj_Node e);
     nj_Type := nj_Type e;
     nj_Fields := nj_Fields e |}.

(** [e'] is what comes back from the JSON of [e]: the attributes of the
    node and the type id as they were, and under each group and name what
    [carried] allows for the raw dump that went in. ([encoding/json] gives
    back a nil pointer for the raw dump [null], and the text of a raw dump
    with the indentation of the document it was read from.) *)
Definition json_carries (carried : bytes → option bytes → Prop)
    (e e' : nodeJSON) : Prop :=
  nj_Node e' = Node_on_wire (nj_Node e) ∧
  nj_Type e' = nj_Type e ∧
  ∀ group name,
    match default ∅ (nj_Fields e !! group) !! name with
    | Some raw => carried raw (default ∅ (nj_Fields e' !! group) !! name)
    | None => default ∅ (nj_Fields e' !! group) !! name = None
    end.

(** [f0] is a field fresh from the constructor, for a declared
    configuration with the id of [field]. *)
Definition fresh_for (l : list FieldConfig) (field : FieldConfig) (f0 : Field) : Prop :=
  ∃ field', field' ∈ l ∧ fc_Id field' = fc_Id field ∧ Field_new field' = inr f0.

(** [field] can be written by the loop of [nodeToData]: its id has two
    parts, the node holds it and its dump has a JSON. *)
Definition dumps_well (n : Node) (field : FieldConfig) : Prop :=
  is_Some (strings_Cut "." (fc_Id field)) ∧ is_Some (dumped n (fc_Id field)).

(** The [Load] that the loop of [dataToNode] does for a field, if any. *)
Definition load_event (node : nodeJSON) (field : FieldConfig) : option Event :=
  EvLoad (fc_Id field) <$> raw_of (nj_Fields node) (fc_Id field).

(** ** Computations that leave the world alone *)

(** [m] reads the world at most: it gives the world back unchanged and
    its outcome is the same in every world. *)
Definition quiet {A} (m : M A) : Prop :=
  ∃ o : outcome A, ∀ w, m w = (o, w).

End Code.

(** ** A concrete world: text fields and a scripted broker

    One instance of the external types and functions, small enough to run:
    every field is a text field, payloads are strings, times are integers;
    the JSON of a string is the string between quotes; an envelope is
    written as the binary digits of its code. The node type is the
    ["page"] of the example scenario of the specification. *)
Module Demo.

#[export] Instance demo_types : Types :=
  {| Value := string; Time := Z; Field := string; FieldType := unit;
     Mail := string |}.

Definition quote : byte := Byte.x22.

Definition json_quote (s : string) : bytes :=
  quote :: String.list_byte_of_string s ++ [quote].

Definition json_unquote (b : bytes) : option string :=
  match b with
  | [] => None
  | c :: rest =>
      if Byte.eqb c quote then
        match reverse rest with
        | d :: body =>
            if Byte.eqb d quote then Some (String.string_of_list_byte (reverse body))
            else None
        | [] => None
        end
      else None
  end.

(** Reads a string up to its closing quote: the content and what
    follows. *)
Fixpoint read_string (l : bytes) : option (bytes * bytes) :=
  match l with
  | [] => None
  | b :: r =>
      if Byte.eqb b quote then Some ([], r)
      else match read_string r with
           | Some (s, rest) => Some (b :: s, rest)
           | None => None
           end
  end.

Definition has_bytes_prefix (p : string) (l : bytes) : option bytes :=
  let p := String.list_byte_of_string p in
  if bool_decide (take (length p) (Byte.to_N <$> l) = Byte.to_N <$> p)
  then Some (drop (length p) l) else None.

(** A value of a configuration object: a string, or [null]. *)
Definition read_value (l : bytes) : option (option string * bytes) :=
  match has_bytes_prefix "null" l with
  | Some rest => Some (None, rest)
  | None =>
      match l with
      | [] => None
      | c :: r =>
          if Byte.eqb c quote then
            match read_string r with
            | Some (s, rest) => Some (Some (String.string_of_list_byte s), rest)
            | None => None
            end
          else None
      end
  end.

Fixpoint read_members (fuel : nat) (l : bytes) (acc : gmap string (option string))
    : option (gmap string (option string)) :=
  match fuel with
  | O => None
  | S fuel =>
      match (match l with
             | c :: r => if Byte.eqb c quote then Some r else None
             | [] => None
             end) with
      | None => None
      | Some r =>
          match read_string r with
          | None => None
          | Some (k, r1) =>
              match has_bytes_prefix ":" r1 with
              | None => None
              | Some r2 =>
                  match read_value r2 with
                  | None => None
                  | Some (v, r3) =>
                      let acc := <[String.string_of_list_byte k := v]> acc in
                      match has_bytes_prefix "," r3 with
                      | Some r4 => read_members fuel r4 acc
                      | None =>
                          match has_bytes_prefix "}" r3 with
                          | Some [] => Some acc
                          | _ => None
                          end
                      end
                  end
              end
          end
      end
  end.

(** [json.Unmarshal] into a map from names to pointers to strings, on
    objects without white space or escapes. [null] leaves the map nil. *)
Definition demo_Unmarshal_map (b : bytes) : error + gmap string (option string) :=
  if bool_decide (length b = 0) then inl (errors_New "unexpected end of JSON input")
  else match has_bytes_prefix "null" b, has_bytes_prefix "{}" b with
       | Some [], _ | _, Some [] => inr ∅
       | _, _ =>
           match has_bytes_prefix "{" b with
           | Some r =>
               match read_members (length r) r ∅ with
               | Some m => inr m
               | None => inl (errors_New "invalid character in object")
               end
           | None => inl (errors_New "json: cannot unmarshal into Go value of type map")
           end
       end.

(** The envelope on the wire: what [encoding/json] writes of a
    [nodeJSON]. The [Type] and [Fields] of the embedded node are hidden by
    the fields of the same name of the envelope. *)
Definition wire : Type :=
  string * Z * list (string * unit) * string * gmap string (gmap string (list N)).

Definition to_wire (e : nodeJSON) : wire :=
  (Path (nj_Node e), Changed (nj_Node e),
   (λ c, (fc_Id c, fc_Type c)) <$> LocalFields (nj_Node e),
   nj_Type e,
   (λ group : gmap string bytes, (λ raw : bytes, Byte.to_N <$> raw) <$> group)
     <$> nj_Fields e).

Definition byte_of_N (n : N) : byte := default Byte.x00 (Byte.of_N n).

Definition wire_fields (fields : gmap string (gmap string (list N)))
    : gmap string (gmap string bytes) :=
  (λ group : gmap string (list N), (λ raw : list N, byte_of_N <$> raw) <$> group)
    <$> fields.

Definition wire_locals (locals : list (string * unit)) : list FieldConfig :=
  (λ c : string * unit, {| fc_Id := c.1; fc_Type := c.2 |}) <$> locals.

Definition of_wire (x : wire) : nodeJSON :=
  {| nj_Node := {| Path := x.1.1.1.1; Type_ := None; Changed := x.1.1.1.2;
                   Fields := ∅; LocalFields := wire_locals x.1.1.2 |};
     nj_Type := x.1.2;
     nj_Fields := wire_fields x.2 |}.

(** A positive number as its binary digits, lowest first. *)
Fixpoint pos_to_bytes (p : positive) : bytes :=
  match p with
  | xH => ["1"%byte]
  | xO q => "0"%byte :: pos_to_bytes q
  | xI q => "1"%byte :: pos_to_bytes q
  end.

Fixpoint bytes_to_pos (l : bytes) : option positive :=
  match l with
  | [] => None
  | b :: r =>
      match r with
      | [] => if Byte.eqb b "1"%byte then Some xH else None
      | _ :: _ =>
          if Byte.eqb b "0"%byte then xO <$> bytes_to_pos r
          else if Byte.eqb b "1"%byte then xI <$> bytes_to_pos r
          else None
      end
  end.

Definition demo_Marshal_node (e : nodeJSON) : error + bytes :=
  inr (pos_to_bytes (encode (to_wire e))).

Definition demo_Unmarshal_node (b : bytes) : error + nodeJSON :=
  match bytes_to_pos b ≫= decode with
  | Some x => inr (of_wire x)
  | None => inl (errors_New "invalid character looking for beginning of value")
  end.

Definition demo_Load (f : string) (raw : bytes) : string * option error :=
  match json_unquote raw with
  | Some s => (s, None)
  | None => (f, Some (errors_New "json: cannot unmarshal into Go value of type string"))
  end.

Definition demo_Quote (s : string) : string :=
  String (Ascii.ascii_of_nat 34) (s +:+ String (Ascii.ascii_of_nat 34) EmptyString).

Definition demo_gob_Decode (b : bytes) : error + string :=
  if bool_decide (length b = 0) then inl (errors_New "EOF")
  else inr (String.string_of_list_byte b).

(** The node type and the node of the example scenario. *)
Definition core_title : FieldConfig := {| fc_Id := "core.title"; fc_Type := tt |}.
Definition core_body : FieldConfig := {| fc_Id := "core.body"; fc_Type := tt |}.

Definition page : NodeType :=
  {| nt_Id := "page"; nt_Fields := [core_title; core_body] |}.

Definition about : Node :=
  {| Path := "/about"; Type_ := Some page; Changed := 0%Z;
     Fields := {[ "core.title" := "About Us"; "core.body" := "Hello" ]};
     LocalFields := [] |}.

Definition request7 : Request :=
  {| Id := 7%N; NodePath := "/about"; Site := "example"; Query := ∅;
     Method := GetRequest_method; Session := None; Action_ := ViewAction;
     FormData := ∅ |}.

(** A broker with an empty store: it knows the type ["page"], holds the
    request 7, delivers the signal ["beforeSave"] and sends an empty object
    as every site configuration. *)
Definition demo_broker (tr : list Event) (c : RPCCall) : error + Reply c :=
  match c return error + Reply c with
  | Monsti_ModuleInitDone _ => inr 0%Z
  | Monsti_GetNode _ _ => inr []
  | Monsti_GetChildren _ _ => inr []
  | Monsti_GetNodeData _ _ _ => inr []
  | Monsti_WriteNodeData _ _ _ _ => inr 0%Z
  | Monsti_RemoveNode _ _ => inr 0%Z
  | Monsti_RenameNode _ _ _ => inr 0%Z
  | Monsti_GetSiteConfig _ _ => inr (String.list_byte_of_string "{}")
  | Monsti_RegisterNodeType _ => inr 0%Z
  | Monsti_GetNodeType id =>
      if bool_decide (id = "page") then inr page
      else inl (errors_New "unknown node type")
  | Monsti_GetAddableNodeTypes _ _ => inr []
  | Monsti_GetRequest _ => inr request7
  | Monsti_GetNodeTypes => inr ["page"]
  | Monsti_PublishService _ _ => inr 0%Z
  | Monsti_SendMail _ => inr 0%Z
  | Monsti_ConnectSignal _ _ => inr 0%Z
  | Monsti_EmitSignal _ _ => inr []
  | Monsti_WaitSignal _ => inr ("beforeSave", String.list_byte_of_string "/x")
  | Monsti_FinishSignal _ _ => inr 0%Z
  end.

#[export] Instance demo_externals : Externals :=
  {| rpc_Call := demo_broker;
     clock := λ n, (1400000000 + Z.of_nat n)%Z;
     Time_UTC := λ t, t;
     Field_Dump := λ f, f;
     Field_Load := demo_Load;
     Field_new := λ _, inr EmptyString;
     json_Marshal := λ v, inr (json_quote v);
     json_Marshal_node := demo_Marshal_node;
     json_MarshalIndent_node := demo_Marshal_node;
     json_Unmarshal_node := demo_Unmarshal_node;
     json_Unmarshal_map := demo_Unmarshal_map;
     reflect_MapKeys := λ m, (map_to_list m).*1;
     gob_Encode := λ v, inr (String.list_byte_of_string v);
     gob_Decode := demo_gob_Decode;
     strconv_Quote := demo_Quote |}.

(** The world at the start: the node ["/about"] behind the pointer 1. *)
Definition world0 : World :=
  {| heap := {[ 1%positive := about ]}; trace := []; ticks := 0 |}.

(** A connected client that handles ["beforeSave"], one without handlers,
    one whose handler fails, and one whose connection failed. *)
Definition worker : MonstiClient :=
  {| Error := None; Client_Id := "worker";
     SignalHandlers := {[ "beforeSave" := λ v : string, (v, None) ]} |}.

Definition idle : MonstiClient :=
  {| Error := None; Client_Id := "idle"; SignalHandlers := ∅ |}.

Definition refuser : MonstiClient :=
  {| Error := None; Client_Id := "refuser";
     SignalHandlers :=
       {[ "beforeSave" := λ _ : string, (EmptyString, Some (errors_New "save refused")) ]} |}.

Definition broken : MonstiClient :=
  {| Error := Some (errors_New "dial unix monsti.socket: connection refused");
     Client_Id := "broken"; SignalHandlers := ∅ |}.

(** The node ["/about"] as [nodeToData] writes it. *)
Definition about_data : bytes :=
  Eval vm_compute in
    match (nodeToData 1%positive false world0).1 with
    | Done (data, _) => data
    | Panic _ => []
    end.

(** An envelope of type ["page"] that has a title and no body, and its
    bytes. *)
Definition untitled : nodeJSON :=
  {| nj_Node := {| Path := EmptyString; Type_ := None; Changed := 0%Z; Fields := ∅;
                   LocalFields := [] |};
     nj_Type := "page";
     nj_Fields := {[ "core" := {[ "title" := json_quote "About Us" ]} ]} |}.

Definition untitled_data : bytes :=
  Eval vm_compute in pos_to_bytes (encode (to_wire untitled)).

(** The node ["/about"] holding one more field, ["core.tags"], which
    neither its type ["page"] nor the node itself declares, and a world
    with it behind the pointer 1. *)
Definition labelled : Node :=
  {| Path := "/about"; Type_ := Some page; Changed := 0%Z;
     Fields := {[ "core.title" := "About Us"; "core.body" := "Hello";
                  "core.tags" := "a,b" ]};
     LocalFields := [] |}.

Definition shelf : World :=
  {| heap := {[ 1%positive := labelled ]}; trace := []; ticks := 0 |}.

End Demo.

(** * A broker with a store, and one that is down

    The types, the clock and the codecs of [Demo], with a broker that
    holds nodes: it gives back under a site and a path what was last
    written there as ["node.json"], and has a few nodes of its own. *)

Module Store.
Import Demo.

(** A node that has the type ["page"] and holds no body. *)
Definition stub : Node :=
  {| Path := "/stub"; Type_ := Some page; Changed := 0%Z;
     Fields := {[ "core.title" := "Stub" ]};
     LocalFields := [] |}.

(** A node with a local field whose id has one part only. *)
Definition summary : FieldConfig := {| fc_Id := "summary"; fc_Type := tt |}.

Definition flat : nodeJSON :=
  {| nj_Node := {| Path := EmptyString; Type_ := None; Changed := 0%Z; Fields := ∅;
                   LocalFields := [summary] |};
     nj_Type := "page";
     nj_Fields := ∅ |}.

Definition flat_data : bytes :=
  Eval vm_compute in pos_to_bytes (encode (to_wire flat)).

(** An envelope of a type the broker does not know. *)
Definition draft : nodeJSON :=
  {| nj_Node := {| Path := EmptyString; Type_ := None; Changed := 0%Z; Fields := ∅;
                   LocalFields := [] |};
     nj_Type := "note";
     nj_Fields := ∅ |}.

Definition draft_data : bytes :=
  Eval vm_compute in pos_to_bytes (encode (to_wire draft)).

(** The envelope [untitled] with one more raw dump, under a name that the
    type ["page"] does not declare. *)
Definition tagged : nodeJSON :=
  {| nj_Node := nj_Node untitled;
     nj_Type := "page";
     nj_Fields := {[ "core" := {[ "title" := json_quote "About Us";
                                  "tags" := json_quote "a,b" ]} ]} |}.

Definition tagged_data : bytes :=
  Eval vm_compute in pos_to_bytes (encode (to_wire tagged)).

(** What was last written as ["node.json"] under a site and a path. *)
Fixpoint written (tr : list Event) (site path : string) (found : option bytes)
    : option bytes :=
  match tr with
  | [] => found
  | EvCall (Monsti_WriteNodeData site' path' file data) :: tr' =>
      if bool_decide (site' = site ∧ path' = path ∧ file = "node.json")
      then written tr' site path (Some data)
      else written tr' site path found
  | _ :: tr' => written tr' site path found
  end.

Definition site_title : bytes :=
  String.list_byte_of_string "{" ++ json_quote "title" ++
  String.list_byte_of_string ":" ++ json_quote "Monsti" ++
  String.list_byte_of_string "}".

Definition store_broker (tr : list Event) (c : RPCCall) : error + Reply c :=
  match c as c' return error + Reply c' with
  | Monsti_GetNode site path =>
      match written tr site path None with
      | Some data => inr data
      | None =>
          if bool_decide (path = "/about") then inr about_data
          else if bool_decide (path = "/draft") then inr draft_data
          else inr []
      end
  | Monsti_GetChildren _ _ => inr [about_data; []; untitled_data]
  | Monsti_GetSiteConfig _ _ => inr site_title
  | Monsti_ConnectSignal id _ =>
      if bool_decide (id = "guest") then inl (errors_New "not allowed") else inr 0%Z
  | Monsti_EmitSignal name _ =>
      if bool_decide (name = "vote")
      then inr [String.list_byte_of_string "yes"; String.list_byte_of_string "no"]
      else if bool_decide (name = "poll")
      then inr [String.list_byte_of_string "yes"; []; String.list_byte_of_string "no"]
      else inr []
  | c' => demo_broker tr c'
  end.

Definition store_externals : Externals :=
  {| rpc_Call := store_broker;
     clock := λ n, (1400000000 + Z.of_nat n)%Z;
     Time_UTC := λ t, t;
     Field_Dump := λ f, f;
     Field_Load := demo_Load;
     Field_new := λ _, inr EmptyString;
     json_Marshal := λ v, inr (json_quote v);
     json_Marshal_node := demo_Marshal_node;
     json_MarshalIndent_node := demo_Marshal_node;
     json_Unmarshal_node := demo_Unmarshal_node;
     json_Unmarshal_map := demo_Unmarshal_map;
     reflect_MapKeys := λ m, (map_to_list m).*1;
     gob_Encode := λ v, inr (String.list_byte_of_string v);
     gob_Decode := demo_gob_Decode;
     strconv_Quote := demo_Quote |}.



(** The world of [Demo] with the node [stub] behind the pointer 2. *)
Definition world1 : World :=
  {| heap := {[ 1%positive := about; 2%positive := stub ]}; trace := []; ticks := 0 |}.

End Store.

(** * The HTTP front end: the path and the action of a request

    [splitAction] of [serve.go] is the one function of the front end that
    is a computation on its argument only; [ServeHTTP] and [RequestNode]
    are made of calls into [net/http], the session store and the
    templates. *)

Definition slash : Ascii.ascii := Ascii.ascii_of_nat 47.
Definition at_sign : Ascii.ascii := Ascii.ascii_of_nat 64.

Fixpoint take_chars (n : nat) (s : string) : string :=
  match n, s with
  | O, _ => EmptyString
  | S n', String c s' => String c (take_chars n' s')
  | S _, EmptyString => EmptyString
  end.

Definition slice_out_of_range : string :=
  "runtime error: slice bounds out of range".

(** [s[:k]] for an [int] [k]: a bound below zero or beyond the length
    panics. *)
Definition slice_to (s : string) (k : Z) : outcome string :=
  if decide (0 ≤ k ≤ Z.of_nat (String.length s))%Z
  then Done (take_chars (Z.to_nat k) s)
  else Panic slice_out_of_range.

(** [strings.Split(s, sep)] for a non-empty separator: [SplitN] without a
    bound on the number of parts, of which there are at most one more than
    there are characters. *)
Definition strings_Split (s sep : string) : list string :=
  strings_SplitN s sep (S (String.length s)).

(** The test of [splitAction] on its last token. *)
Definition names_action (t : string) : bool :=
  Nat.ltb 2 (String.length t) && String.eqb (take_chars 2 t) "@@".

Definition splitAction (path : string) : outcome (string * string) :=
  let tokens := strings_Split path "/" in
  match index tokens (length tokens - 1) with
  | Panic r => Panic r
  | Done last =>
      let action :=
        if Nat.ltb 2 (String.length last) && String.eqb (take_chars 2 last) "@@"
        then drop_chars 2 last else EmptyString in
      if Nat.ltb 0 (String.length action) then
        match slice_to path (Z.of_nat (String.length path)
                             - (Z.of_nat (String.length action) + 3)) with
        | Panic r => Panic r
        | Done nodePath =>
            if Nat.eqb (String.length nodePath) 0 then Done ("/", action)
            else Done (nodePath, action)
        end
      else Done (path, action)
  end.

(** * Properties *)

Section Properties.
Context {T : Types} {X : Externals}.

(** ** Splitting a field id *)

Lemma has_prefix_drop p s :
  has_prefix p s = true → s = p +:+ drop_chars (String.length p) s.
Proof.
  revert s. induction p as [| a p IH]; intros [| b s]; simpl; try done.
  destruct (Ascii.eqb_spec a b) as [-> |]; [| done].
  intros H. change (String b s = String b (p +:+ drop_chars (String.length p) s)).
  f_equal. by apply IH.
Qed.

Lemma strings_Cut_join sep s before after :
  strings_Cut sep s = Some (before, after) → s = before +:+ sep +:+ after.
Proof.
  revert before. induction s as [| c s IH]; intros before; simpl.
  - destruct (has_prefix sep EmptyString) eqn:Hp; [| done].
    intros [= <- <-]. by apply has_prefix_drop in Hp.
  - destruct (has_prefix sep (String c s)) eqn:Hp.
    + intros [= <- <-]. by apply has_prefix_drop in Hp.
    + destruct (strings_Cut sep s) as [[b a] |]; [| done].
      intros [= <- <-]. change (String c s = String c (b +:+ sep +:+ a)).
      f_equal. by apply IH.
Qed.

(** Two ids that split into the same group and name are the same id. *)
Lemma strings_Cut_inj sep s1 s2 p :
  strings_Cut sep s1 = Some p → strings_Cut sep s2 = Some p → s1 = s2.
Proof.
  destruct p as [before after]. intros H1 H2.
  apply strings_Cut_join in H1, H2. congruence.
Qed.

Lemma SplitN_dot id :
  strings_SplitN id "." 2
  = match strings_Cut "." id with
    | Some (group, name) => [group; name]
    | None => [id]
    end.
Proof. unfold strings_SplitN. by destruct (strings_Cut "." id) as [[g nm] |]. Qed.

(** Writing the dump of one id into the two-level mapping changes what is
    found for that id and for no other. *)
Lemma raw_of_insert fields id0 group name dump id :
  strings_Cut "." id0 = Some (group, name) →
  raw_of (<[group := <[name := dump]> (default ∅ (fields !! group))]> fields) id
  = if decide (id = id0) then Some dump else raw_of fields id.
Proof.
  intros H0. unfold raw_of. case_decide as Hid.
  - subst id. rewrite H0. rewrite lookup_insert_eq. simpl. by rewrite lookup_insert_eq.
  - destruct (strings_Cut "." id) as [[g nm] |] eqn:Hc; [| done].
    destruct (decide (g = group)) as [-> | Hg].
    + rewrite lookup_insert_eq. simpl.
      rewrite lookup_insert_ne; [done |]. intros <-.
      apply Hid. by eapply strings_Cut_inj.
    + by rewrite lookup_insert_ne.
Qed.

(** ** Running the monad; computations that leave the world alone *)

Lemma bind_run {A B} (m : M A) (f : A → M B) w :
  (m ≫= f) w
  = match m w with
    | (Done a, w') => f a w'
    | (Panic r, w') => (Panic r, w')
    end.
Proof. done. Qed.

Lemma ret_run {A} (a : A) w : mret (M := M) a w = (Done a, w).
Proof. done. Qed.

Ltac run :=
  repeat first [rewrite bind_run | rewrite ret_run | progress cbv beta iota zeta].

Lemma quiet_ret {A} (a : A) : quiet (mret a).
Proof. by exists (Done a). Qed.

Lemma quiet_panic {A} r : quiet (panic (A := A) r).
Proof. by exists (Panic r). Qed.

Lemma quiet_lift {A} (o : outcome A) : quiet (lift o).
Proof. by exists o. Qed.

Lemma quiet_non_nil {A} (o : option A) : quiet (non_nil o).
Proof. destruct o; [apply quiet_ret | apply quiet_panic]. Qed.

Lemma quiet_bind {A B} (m : M A) (f : A → M B) :
  quiet m → (∀ a, quiet (f a)) → quiet (m ≫= f).
Proof.
  intros [o Ho] Hf. destruct o as [a | r].
  - destruct (Hf a) as [o' Ho']. exists o'. intros w.
    unfold mbind, M_bind. by rewrite Ho, Ho'.
  - exists (Panic r). intros w. unfold mbind, M_bind. by rewrite Ho.
Qed.

Lemma quiet_for_range {A S R} (body : A → S → M (S + R)) l :
  (∀ x s, quiet (body x s)) → ∀ s, quiet (for_range l body s).
Proof.
  intros Hb. induction l as [| x l IH]; intros s; simpl.
  - apply quiet_ret.
  - apply quiet_bind; [apply Hb |]. intros [s' | v]; [apply IH | apply quiet_ret].
Qed.

Lemma quiet_dump_field n field outNode : quiet (dump_field n field outNode).
Proof.
  unfold dump_field. apply quiet_bind; [apply quiet_non_nil |]. intros f.
  destruct (json_Marshal (Field_Dump f)); [apply quiet_ret |].
  apply quiet_bind; [apply quiet_lift |]. intros p0.
  apply quiet_bind; [apply quiet_lift |]. intros p1. apply quiet_ret.
Qed.

Lemma quiet_init_field field fields : quiet (init_field field fields).
Proof. unfold init_field. destruct (Field_new field); apply quiet_ret. Qed.

Lemma quiet_InitFields n m site : quiet (InitFields n m site).
Proof.
  unfold InitFields. apply quiet_bind; [apply quiet_non_nil |]. intros t.
  apply quiet_bind; [apply quiet_for_range, quiet_init_field |].
  intros [fields | err]; apply quiet_ret.
Qed.

(** ** The envelope a node is encoded to *)

Lemma quiet_encode_node n indent : quiet (encode_node n indent).
Proof.
  unfold encode_node. apply quiet_bind; [apply quiet_non_nil |]. intros t.
  apply quiet_bind; [apply quiet_for_range, quiet_dump_field |].
  intros [outNode | ret]; [| apply quiet_ret].
  destruct indent.
  - destruct (json_MarshalIndent_node outNode); apply quiet_ret.
  - destruct (json_Marshal_node outNode); apply quiet_ret.
Qed.

Lemma World_set_heap_id w : World_set_heap (heap w) w = w.
Proof. by destruct w. Qed.

Lemma Node_set_Path_id n : Node_set_Path (Path n) (Node_set_Path "" n) = n.
Proof. by destruct n. Qed.

(** [nodeToData] on a live pointer: the outcome of encoding the node with
    its path cleared, in an unchanged world. *)
Lemma nodeToData_run node indent w n :
  heap w !! node = Some n →
  ∃ o, (∀ w', encode_node (Node_set_Path "" n) indent w' = (o, w')) ∧
       nodeToData node indent w = (o, w).
Proof.
  intros Hn. destruct (quiet_encode_node (Node_set_Path "" n) indent) as [o Ho].
  exists o. split; [done |].
  unfold nodeToData, mbind, M_bind, deref, store, defer. simpl. rewrite Hn. simpl.
  rewrite lookup_insert_eq, Ho. simpl. rewrite lookup_insert_eq. unfold World_set_heap. simpl.
  rewrite insert_insert_eq, Node_set_Path_id, (insert_id _ _ _ Hn).
  by destruct w.
Qed.

Lemma nodeToData_nil node indent w :
  heap w !! node = None → nodeToData node indent w = (Panic nil_dereference, w).
Proof.
  intros Hn. unfold nodeToData, mbind, M_bind, deref. by rewrite Hn.
Qed.

(** The loop of [nodeToData] leaves the embedded node and the type id of
    the envelope alone. *)
Lemma dump_loop_node n l outNode outNode' w w' :
  for_range l (dump_field n) outNode w = (Done (inl outNode'), w') →
  nj_Node outNode' = nj_Node outNode ∧ nj_Type outNode' = nj_Type outNode.
Proof.
  revert outNode w. induction l as [| field l IH]; intros outNode w; simpl.
  - unfold mret, M_ret. by intros [= <- _].
  - unfold mbind, M_bind.
    destruct (dump_field n field outNode w) as [[[o1 | ret] | r] w1] eqn:Hd;
      [| done | done].
    intros Hl. apply IH in Hl as [-> ->].
    unfold dump_field, mbind, M_bind, non_nil, lift, index in Hd.
    destruct (Fields n !! fc_Id field); simpl in Hd; [| done].
    destruct (json_Marshal _); simpl in Hd; [done |].
    destruct (strings_Cut "." (fc_Id field)) as [[g nm] |]; simpl in Hd; [| done].
    by injection Hd as <- _.
Qed.

(** A [return] from inside the loop of [nodeToData] carries an error. *)
Lemma dump_loop_return n l outNode ret w w' :
  for_range l (dump_field n) outNode w = (Done (inr ret), w') → is_Some ret.2.
Proof.
  revert outNode w. induction l as [| field l IH]; intros outNode w; simpl.
  - done.
  - unfold mbind, M_bind.
    destruct (dump_field n field outNode w) as [[[o1 | ret1] | r1] w1] eqn:Hd;
      [| | done].
    + apply IH.
    + unfold mret, M_ret. intros [= <- _].
      unfold dump_field, mbind, M_bind, non_nil, lift, index in Hd.
      destruct (Fields n !! fc_Id field); simpl in Hd; [| done].
      destruct (json_Marshal _); simpl in Hd.
      * injection Hd as <- _. by eexists.
      * destruct (strings_Cut "." (fc_Id field)) as [[g nm] |]; simpl in Hd; done.
Qed.

(** Data comes out of [encode_node] as the JSON of an envelope around the
    node. *)
Lemma encode_node_data n indent data w w' :
  encode_node n indent w = (Done (data, None), w') →
  ∃ outNode,
    nj_Node outNode = n ∧
    (if indent then json_MarshalIndent_node outNode
     else json_Marshal_node outNode) = inr data.
Proof.
  unfold encode_node, mbind, M_bind, non_nil.
  destruct (Type_ n) as [t |]; simpl; [| done].
  destruct (for_range _ _ _ w) as [[[outNode | ret] | r] w1] eqn:Hl; [| | done].
  - apply dump_loop_node in Hl as [Hl _]. simpl in Hl. intros Ho.
    exists outNode. split; [done |].
    destruct indent.
    + destruct (json_MarshalIndent_node outNode); simpl in Ho; [done |].
      by injection Ho as -> _.
    + destruct (json_Marshal_node outNode); simpl in Ho; [done |].
      by injection Ho as -> _.
  - apply dump_loop_return in Hl as [err Herr]. unfold mret, M_ret.
    intros [= -> _]. done.
Qed.

(** One turn of the loop of [nodeToData] that goes on to the next: the
    field is there, its dump has a JSON, its id splits in two, and the
    JSON is written under the two parts. *)
Lemma dump_field_next n field outNode outNode' w w' :
  dump_field n field outNode w = (Done (inl outNode'), w') →
  ∃ f raw group name,
    Fields n !! fc_Id field = Some f ∧
    json_Marshal (Field_Dump f) = inr raw ∧
    strings_Cut "." (fc_Id field) = Some (group, name) ∧
    outNode' = nodeJSON_set_Fields
      (<[group := <[name := raw]> (default ∅ (nj_Fields outNode !! group))]>
         (nj_Fields outNode)) outNode.
Proof.
  unfold dump_field, mbind, M_bind, non_nil, lift, index. rewrite SplitN_dot.
  destruct (Fields n !! fc_Id field) as [f |]; simpl; [| done].
  destruct (json_Marshal (Field_Dump f)) as [err | raw] eqn:Hm; simpl; [done |].
  destruct (strings_Cut "." (fc_Id field)) as [[g nm] |]; simpl; [| done].
  intros [= <- _]. by exists f, raw, g, nm.
Qed.

Lemma raw_of_empty id : raw_of ∅ id = None.
Proof. unfold raw_of. by destruct (strings_Cut "." id) as [[g nm] |]. Qed.

(** The loop of [nodeToData], when it runs to its end: every field it went
    through had an id in two parts and a dump with a JSON, and the envelope
    now holds, for each of these ids, that JSON. *)
Lemma dump_loop_fields n l outNode outNode' w w' :
  for_range l (dump_field n) outNode w = (Done (inl outNode'), w') →
  (∀ field, field ∈ l →
     is_Some (strings_Cut "." (fc_Id field)) ∧ is_Some (dumped n (fc_Id field))) ∧
  (∀ id, raw_of (nj_Fields outNode') id
         = if decide (id ∈ fc_Id <$> l) then dumped n id
           else raw_of (nj_Fields outNode) id).
Proof.
  revert outNode w. induction l as [| field l IH]; intros outNode w Hl.
  - injection Hl as <- _. split.
    + intros field Hin. by apply elem_of_nil in Hin.
    + intros id. rewrite decide_False; [done | apply not_elem_of_nil].
  - cbn [for_range] in Hl. rewrite bind_run in Hl.
    destruct (dump_field n field outNode w) as [[[o1 | ret] | r] w1] eqn:Hd;
      [| done | done].
    apply IH in Hl as [Hall Hraw].
    apply dump_field_next in Hd as (f & raw & g & nm & Hf & Hm & Hc & ->).
    assert (Hdumped : dumped n (fc_Id field) = Some raw)
      by (unfold dumped; by rewrite Hf, Hm).
    split.
    + intros field' [-> | Hin]%elem_of_cons; [| by apply Hall].
      rewrite Hc, Hdumped. split; by eexists.
    + intros id. rewrite Hraw. cbn [nj_Fields nodeJSON_set_Fields].
      rewrite (raw_of_insert _ _ _ _ _ _ Hc), fmap_cons.
      destruct (decide (id ∈ fc_Id <$> l)) as [Hin | Hnin].
      * rewrite decide_True; [done | by apply elem_of_cons; right].
      * destruct (decide (id = fc_Id field)) as [-> | Hne].
        -- rewrite decide_True; [done | by apply elem_of_cons; left].
        -- rewrite decide_False; [done |].
           intros [? | ?]%elem_of_cons; done.
Qed.

(** A successful [encode_node]: the envelope behind the data. *)
Lemma encode_node_envelope n t indent data w w' :
  Type_ n = Some t →
  encode_node n indent w = (Done (data, None), w') →
  ∃ outNode,
    nj_Node outNode = n ∧ nj_Type outNode = nt_Id t ∧
    (if indent then json_MarshalIndent_node outNode
     else json_Marshal_node outNode) = inr data ∧
    (∀ field, field ∈ declared t n →
       is_Some (strings_Cut "." (fc_Id field)) ∧ is_Some (dumped n (fc_Id field))) ∧
    (∀ id, raw_of (nj_Fields outNode) id
           = if decide (id ∈ fc_Id <$> declared t n) then dumped n id else None).
Proof.
  intros Ht. unfold encode_node, mbind, M_bind, non_nil. rewrite Ht. simpl.
  fold (declared t n).
  destruct (for_range _ _ _ w) as [[[outNode | ret] | r] w1] eqn:Hl; [| | done].
  - destruct (dump_loop_node _ _ _ _ _ _ Hl) as [Hnode Htype].
    destruct (dump_loop_fields _ _ _ _ _ _ Hl) as [Hall Hraw].
    simpl in Hnode, Htype. intros Ho. exists outNode.
    split; [done |]. split; [done |]. split.
    { destruct indent.
      - destruct (json_MarshalIndent_node outNode); simpl in Ho; [done |].
        by injection Ho as -> _.
      - destruct (json_Marshal_node outNode); simpl in Ho; [done |].
        by injection Ho as -> _. }
    split; [done |].
    intros id. rewrite Hraw. cbn [nj_Fields]. by rewrite raw_of_empty.
  - apply dump_loop_return in Hl as [err Herr]. unfold mret, M_ret.
    intros [= -> _]. done.
Qed.

(** ** The loops of [InitFields] and [dataToNode] *)

(** After the loop of [InitFields] every id it went through holds a field
    fresh from the constructor, and the other ids are as before. *)
Lemma init_loop l acc fields w w' :
  for_range l init_field acc w = (Done (inl fields), w') →
  w' = w ∧
  (∀ id, id ∉ fc_Id <$> l → fields !! id = acc !! id) ∧
  (∀ field, field ∈ l →
     ∃ field' f0, field' ∈ l ∧ fc_Id field' = fc_Id field ∧
                  Field_new field' = inr f0 ∧ fields !! fc_Id field = Some f0).
Proof.
  revert acc w. induction l as [| field l IH]; intros acc w Hl.
  - injection Hl as <- <-. split; [done |]. split; [done |].
    intros field Hin. by apply elem_of_nil in Hin.
  - cbn [for_range] in Hl. rewrite bind_run in Hl. unfold init_field in Hl at 1.
    destruct (Field_new field) as [err | f] eqn:Hnew; [done |].
    cbn in Hl. apply IH in Hl as (-> & Hout & Hin). split; [done |].
    assert (Hhead : ∃ field' f0, field' ∈ field :: l ∧ fc_Id field' = fc_Id field ∧
                      Field_new field' = inr f0 ∧ fields !! fc_Id field = Some f0).
    { destruct (decide (fc_Id field ∈ fc_Id <$> l)) as [Hdup | Hfresh].
      - apply list_elem_of_fmap in Hdup as (field2 & Hid & Hin2).
        destruct (Hin field2 Hin2) as (field' & f0 & ? & ? & ? & ?).
        exists field', f0. rewrite Hid. split; [by apply elem_of_cons; right |].
        split; [congruence |]. split; [done |]. congruence.
      - exists field, f. split; [by apply elem_of_cons; left |]. split; [done |].
        split; [done |]. rewrite (Hout _ Hfresh). apply lookup_insert_eq. }
    split.
    + intros id Hid. rewrite fmap_cons in Hid.
      apply not_elem_of_cons in Hid as [Hne Hid].
      rewrite (Hout _ Hid). by apply lookup_insert_ne.
    + intros field1 [-> | Hin1]%elem_of_cons; [done |].
      destruct (Hin field1 Hin1) as (field' & f0 & ? & ? & ? & ?).
      exists field', f0. split; [by apply elem_of_cons; right | done].
Qed.

Lemma init_loop_total l acc w :
  (∀ field, field ∈ l → ∃ f0, Field_new field = inr f0) →
  ∃ fields, for_range l init_field acc w = (Done (inl fields), w).
Proof.
  revert acc. induction l as [| field l IH]; intros acc Hnew.
  - by exists acc.
  - cbn [for_range]. rewrite bind_run. unfold init_field at 1.
    destruct (Hnew field) as [f0 ->]; [by apply elem_of_cons; left |].
    cbn. apply IH. intros field' Hin. apply Hnew. by apply elem_of_cons; right.
Qed.

(** [InitFields] on a node with a type whose field kinds can all be
    built. *)
Lemma InitFields_run n t m site w :
  Type_ n = Some t →
  (∀ field, field ∈ declared t n → ∃ f0, Field_new field = inr f0) →
  ∃ fields,
    InitFields n m site w = (Done (Node_set_Fields fields n, None), w) ∧
    (∀ id, id ∉ fc_Id <$> declared t n → fields !! id = None) ∧
    (∀ field, field ∈ declared t n →
       ∃ field' f0, field' ∈ declared t n ∧ fc_Id field' = fc_Id field ∧
                    Field_new field' = inr f0 ∧ fields !! fc_Id field = Some f0).
Proof.
  intros Ht Hnew. unfold InitFields. rewrite Ht. fold (declared t n).
  destruct (init_loop_total _ ∅ w Hnew) as [fields Hl].
  exists fields. unfold non_nil. run. change (nt_Fields t ++ LocalFields n) with (declared t n).
  rewrite Hl. run. split; [done |].
  apply init_loop in Hl as (_ & Hout & Hin). split; [| done].
  intros id Hid. by rewrite (Hout _ Hid).
Qed.

(** One turn of the loop of [dataToNode] on a field whose id has two parts
    and which the node holds: the field is loaded when the envelope has a
    raw dump for it, and left alone when it has none. *)
Lemma load_field_run node field ret w f :
  is_Some (strings_Cut "." (fc_Id field)) →
  Fields ret !! fc_Id field = Some f →
  load_field node field ret w
  = match raw_of (nj_Fields node) (fc_Id field) with
    | Some raw =>
        (Done (Node_set_Fields (<[fc_Id field := (Field_Load f raw).1]> (Fields ret)) ret),
         World_log (EvLoad (fc_Id field) raw) w)
    | None => (Done ret, w)
    end.
Proof.
  intros [[g nm] Hc] Hf. unfold load_field, raw_of. rewrite SplitN_dot, Hc.
  unfold lift, index, non_nil, log. run. cbn [lookup list_lookup]. run.
  destruct (default ∅ (nj_Fields node !! g) !! nm) as [raw |]; [| done].
  rewrite Hf. run. by destruct (Field_Load f raw).
Qed.

(** The loop of [dataToNode] over fields whose ids have two parts and
    which the node holds. It ends without a panic; it only logs loads, of
    raw dumps the envelope holds; it keeps the other attributes of the
    node and the set of its field ids; a field without a raw dump in the
    envelope is as before. *)
Lemma load_loop node l ret w :
  (∀ field, field ∈ l → is_Some (strings_Cut "." (fc_Id field))) →
  (∀ field, field ∈ l → is_Some (Fields ret !! fc_Id field)) →
  ∃ ret' evs,
    for_each l (load_field node) ret w
    = (Done ret', {| heap := heap w; trace := trace w ++ evs; ticks := ticks w |}) ∧
    Path ret' = Path ret ∧ Type_ ret' = Type_ ret ∧ Changed ret' = Changed ret ∧
    LocalFields ret' = LocalFields ret ∧
    (∀ id, is_Some (Fields ret' !! id) ↔ is_Some (Fields ret !! id)) ∧
    (∀ id, id ∉ fc_Id <$> l ∨ raw_of (nj_Fields node) id = None →
           Fields ret' !! id = Fields ret !! id) ∧
    (∀ e, e ∈ evs →
       ∃ id raw, e = EvLoad id raw ∧ id ∈ fc_Id <$> l ∧
                 raw_of (nj_Fields node) id = Some raw).
Proof.
  revert ret w. induction l as [| field l IH]; intros ret w Hcut Hheld.
  - exists ret, []. cbn. rewrite app_nil_r. split; [by destruct w |].
    repeat (split; [done |]). intros e Hin. by apply elem_of_nil in Hin.
  - destruct (Hheld field) as [f Hf]; [by apply elem_of_cons; left |].
    assert (Hcut' : ∀ field', field' ∈ l → is_Some (strings_Cut "." (fc_Id field')))
      by (intros ? ?; apply Hcut; by apply elem_of_cons; right).
    cbn [for_each]. rewrite bind_run, (load_field_run _ _ _ _ f); [| | done].
    2: { apply Hcut. by apply elem_of_cons; left. }
    destruct (raw_of (nj_Fields node) (fc_Id field)) as [raw |] eqn:Hraw.
    + set (ret1 := Node_set_Fields _ ret).
      assert (Hsome : ∀ id, is_Some (Fields ret1 !! id) ↔ is_Some (Fields ret !! id)).
      { intros id. cbn. destruct (decide (id = fc_Id field)) as [-> | Hne].
        - rewrite lookup_insert_eq, Hf. split; by eexists.
        - by rewrite lookup_insert_ne. }
      destruct (IH ret1 (World_log (EvLoad (fc_Id field) raw) w) Hcut')
        as (ret' & evs & Hrun & HP & HT & HC & HL & Hdom & Hsame & Hev).
      { intros field' Hin. apply Hsome, Hheld. by apply elem_of_cons; right. }
      exists ret', (EvLoad (fc_Id field) raw :: evs). rewrite Hrun. cbn.
      rewrite <- app_assoc. split; [done |].
      do 4 (split; [done |]). split; [| split].
      * intros id. by rewrite Hdom, Hsome.
      * intros id Hid. rewrite Hsame.
        -- cbn. apply lookup_insert_ne. intros <-.
           destruct Hid as [Hid | Hid]; [| congruence].
           apply Hid. rewrite ?fmap_cons. by apply elem_of_cons; left.
        -- destruct Hid as [Hid | Hid]; [left | by right].
           intros Hin. apply Hid. rewrite ?fmap_cons. by apply elem_of_cons; right.
      * intros e [-> | Hin]%elem_of_cons.
        -- exists (fc_Id field), raw. split; [done |]. split; [| done].
           rewrite ?fmap_cons. by apply elem_of_cons; left.
        -- destruct (Hev e Hin) as (id & raw' & -> & Hid & Hr).
           exists id, raw'. split; [done |]. split; [| done].
           rewrite ?fmap_cons. by apply elem_of_cons; right.
    + destruct (IH ret w Hcut')
        as (ret' & evs & Hrun & HP & HT & HC & HL & Hdom & Hsame & Hev).
      { intros field' Hin. apply Hheld. by apply elem_of_cons; right. }
      exists ret', evs. rewrite Hrun. split; [done |].
      do 4 (split; [done |]). split; [| split].
      * done.
      * intros id Hid. apply Hsame.
        destruct (decide (id = fc_Id field)) as [-> | Hne]; [by right |].
        destruct Hid as [Hid | Hid]; [left | by right].
        intros Hin. apply Hid. rewrite ?fmap_cons. by apply elem_of_cons; right.
      * intros e Hin. destruct (Hev e Hin) as (id & raw' & -> & Hid & Hr).
        exists id, raw'. split; [done |]. split; [| done].
        rewrite ?fmap_cons. by apply elem_of_cons; right.
Qed.

(** A field the loop goes through at least once ends as [tgt] when
    loading its raw dump gives [tgt], both from the field the node held at
    first and from [tgt] itself. *)
Lemma load_loop_target node l ret ret' w w' id raw tgt :
  (∀ field, field ∈ l → is_Some (strings_Cut "." (fc_Id field))) →
  (∀ field, field ∈ l → is_Some (Fields ret !! fc_Id field)) →
  for_each l (load_field node) ret w = (Done ret', w') →
  id ∈ fc_Id <$> l →
  raw_of (nj_Fields node) id = Some raw →
  (∀ f0, Fields ret !! id = Some f0 ∨ f0 = tgt → (Field_Load f0 raw).1 = tgt) →
  Fields ret' !! id = Some tgt.
Proof.
  revert ret w. induction l as [| field l IH]; intros ret w Hcut Hheld Hrun Hid Hraw Hlaw.
  - by apply elem_of_nil in Hid.
  - destruct (Hheld field) as [f Hf]; [by apply elem_of_cons; left |].
    assert (Hcut' : ∀ field', field' ∈ l → is_Some (strings_Cut "." (fc_Id field')))
      by (intros ? ?; apply Hcut; by apply elem_of_cons; right).
    assert (Hheld' : ∀ field', field' ∈ l → is_Some (Fields ret !! fc_Id field'))
      by (intros ? ?; apply Hheld; by apply elem_of_cons; right).
    cbn [for_each] in Hrun. rewrite bind_run, (load_field_run _ _ _ _ f) in Hrun;
      [| by apply Hcut, elem_of_cons; left | done].
    rewrite fmap_cons in Hid.
    destruct (decide (id = fc_Id field)) as [-> | Hne].
    + rewrite Hraw in Hrun.
      rewrite (Hlaw f (or_introl Hf)) in Hrun.
      set (ret1 := Node_set_Fields _ ret) in Hrun.
      assert (H1 : Fields ret1 !! fc_Id field = Some tgt) by apply lookup_insert_eq.
      assert (Hheld1 : ∀ field', field' ∈ l → is_Some (Fields ret1 !! fc_Id field')).
      { intros field' Hin. cbn.
        destruct (decide (fc_Id field' = fc_Id field)) as [-> | Hne'].
        - rewrite lookup_insert_eq. by eexists.
        - rewrite lookup_insert_ne; [by apply Hheld' | done]. }
      destruct (decide (fc_Id field ∈ fc_Id <$> l)) as [Hin | Hnin].
      * eapply (IH ret1); [done | done | exact Hrun | done | done |].
        intros f0 [Hf0 | ->]; apply Hlaw; right; congruence.
      * destruct (load_loop node l ret1 (World_log (EvLoad (fc_Id field) raw) w)
                    Hcut' Hheld1) as (ret2 & evs & Hrun2 & _ & _ & _ & _ & _ & Hsame & _).
        rewrite Hrun2 in Hrun. injection Hrun as <- _.
        rewrite Hsame; [done | by left].
    + apply elem_of_cons in Hid as [? | Hin]; [done |].
      destruct (raw_of (nj_Fields node) (fc_Id field)) as [raw1 |].
      * set (ret1 := Node_set_Fields _ ret) in Hrun.
        assert (H1 : Fields ret1 !! id = Fields ret !! id)
          by (cbn; by apply lookup_insert_ne).
        eapply (IH ret1); [done | | exact Hrun | done | done |].
        -- intros field' Hin'. cbn.
           destruct (decide (fc_Id field' = fc_Id field)) as [-> | Hne'].
           ++ rewrite lookup_insert_eq. by eexists.
           ++ rewrite lookup_insert_ne; [by apply Hheld' | done].
        -- intros f0. rewrite H1. apply Hlaw.
      * by eapply (IH ret).
Qed.

(** ** The sticky error *)

(** In the failed state these operations hand back the stored error and
    leave the world, its transport included, untouched. *)
Lemma sticky_error_returned s e w :
  Error s = Some e →
  (∀ module, ModuleInitDone s module w = (Done (Some e), w)) ∧
  (∀ site path, GetChildren s site path w = (Done ([], Some e), w)) ∧
  (∀ site path file, GetNodeData s site path file w = (Done ([], Some e), w)) ∧
  (∀ site name out, GetSiteConfig s site name out w = (Done (Some e, out), w)) ∧
  (∀ nodeType, RegisterNodeType s nodeType w = (Done (Some e), w)) ∧
  (∀ id, GetNodeType s id w = (Done (None, Some e), w)) ∧
  (∀ site nodeType, GetAddableNodeTypes s site nodeType w = (Done ([], Some e), w)) ∧
  (∀ id, GetRequest s id w = (Done (None, Some e), w)) ∧
  GetNodeTypes s w = (Done ([], Some e), w) ∧
  (∀ service path, PublishService s service path w = (Done (Some e), w)) ∧
  (∀ m, SendMail s m w = (Done (Some e), w)) ∧
  (∀ name handle, AddSignalHandler s name handle w = (Done (Some e, s), w)) ∧
  (∀ name args zero retarg,
     EmitSignal s name args zero retarg w = (Done (Some e, retarg), w)) ∧
  WaitSignal s w = (Done (Some e), w).
Proof.
  intros He.
  unfold ModuleInitDone, GetChildren, GetNodeData, GetSiteConfig, RegisterNodeType,
    GetNodeType, GetAddableNodeTypes, GetRequest, GetNodeTypes, PublishService,
    SendMail, AddSignalHandler, EmitSignal, WaitSignal.
  rewrite He. repeat split.
Qed.

(** C1, at the operations that break it: with the sticky error set,
    [WriteNode], [GetNode], [WriteNodeData], [RemoveNode] and [RenameNode]
    do no transport call, but they return a nil error (and [GetNode] a nil
    node) where the claim has them return the stored error. *)
Theorem sticky_error_dropped s e w :
  Error s = Some e →
  (∀ site path node, WriteNode s site path node w = (Done None, w)) ∧
  (∀ site path, GetNode s site path w = (Done (None, None), w)) ∧
  (∀ site path file content,
     WriteNodeData s site path file content w = (Done None, w)) ∧
  (∀ site node, RemoveNode s site node w = (Done None, w)) ∧
  (∀ site source target, RenameNode s site source target w = (Done None, w)).
Proof.
  intros He. unfold WriteNode, GetNode, WriteNodeData, RemoveNode, RenameNode.
  rewrite He. repeat split.
Qed.

(** ** Empty payloads and [GetRequest] *)

(** C5: on a zero-length input [dataToNode] returns no node and no error,
    whatever the type resolver; so [GetNode] on a connected client returns
    [(nil, nil)] when the broker replies with no data. *)
Theorem dataToNode_empty :
  (∀ getNodeType m site w,
     dataToNode [] getNodeType m site w = (Done (None, None), w)) ∧
  (∀ s site path w,
     Error s = None →
     rpc_Call (trace w) (Monsti_GetNode site path) = inr [] →
     GetNode s site path w
     = (Done (None, None), World_log (EvCall (Monsti_GetNode site path)) w)).
Proof.
  split; [done |].
  intros s site path w He Hr.
  unfold GetNode, mbind, M_bind, RPCClient_Call. by rewrite He, Hr.
Qed.

(** C8: on a connected client, [GetRequest] returns the request of the
    reply when its [Id] is the queried one, and [(nil, nil)] when it is
    not. *)
Theorem GetRequest_by_id s id w req :
  Error s = None →
  rpc_Call (trace w) (Monsti_GetRequest id) = inr req →
  (Id req = id →
   GetRequest s id w
   = (Done (Some req, None), World_log (EvCall (Monsti_GetRequest id)) w)) ∧
  (Id req ≠ id →
   GetRequest s id w
   = (Done (None, None), World_log (EvCall (Monsti_GetRequest id)) w)).
Proof.
  intros He Hr. unfold GetRequest, mbind, M_bind, RPCClient_Call.
  rewrite He, Hr. split; intros Hid; by case_decide.
Qed.

(** ** [nodeToData] and [WriteNode] on the caller's node *)

(** C7: [nodeToData] gives back the world it was given, the node behind
    the pointer included, on every way out (a return with data, a return
    with an error, a panic); the node is encoded with its path cleared. *)
Theorem nodeToData_restores_node node indent w :
  (nodeToData node indent w).2 = w ∧
  (∀ n data,
     heap w !! node = Some n →
     (nodeToData node indent w).1 = Done (data, None) →
     ∃ outNode,
       nj_Node outNode = Node_set_Path "" n ∧
       (if indent then json_MarshalIndent_node outNode
        else json_Marshal_node outNode) = inr data).
Proof.
  split.
  - destruct (heap w !! node) as [n |] eqn:Hn.
    + destruct (nodeToData_run node indent w n Hn) as (o & _ & ->). done.
    + by rewrite nodeToData_nil.
  - intros n data Hn Hd.
    destruct (nodeToData_run node indent w n Hn) as (o & Ho & Hrun).
    rewrite Hrun in Hd. simpl in Hd. subst o.
    by apply (encode_node_data _ _ _ _ _ (Ho w)).
Qed.

(** C10: on a connected client [WriteNode] stores the current UTC time in
    [node.Changed] before it encodes the node. Whatever the way out, the
    node left behind the pointer is the caller's node with [Changed] set to
    that time and nothing else changed; the only transport call it can make
    is [Monsti.WriteNodeData] of ["node.json"] with the JSON of an envelope
    around the node with that time (and the path cleared), and it has made
    it when it returns no error. *)
Theorem WriteNode_stamps_Changed s site path node w n :
  Error s = None →
  heap w !! node = Some n →
  ∃ r w' evs,
    WriteNode s site path node w = (r, w') ∧
    heap w' = <[node := Node_set_Changed (Time_UTC (clock (ticks w))) n]> (heap w) ∧
    trace w' = trace w ++ evs ∧
    (evs = [] ∨
     ∃ data outNode,
       evs = [EvCall (Monsti_WriteNodeData site path "node.json" data)] ∧
       json_MarshalIndent_node outNode = inr data ∧
       nj_Node outNode
       = Node_set_Path "" (Node_set_Changed (Time_UTC (clock (ticks w))) n)) ∧
    (r = Done None → evs ≠ []).
Proof.
  intros He Hn. set (now := Time_UTC (clock (ticks w))).
  set (w2 := World_set_heap (<[node := Node_set_Changed now n]> (heap w)) (World_tick w)).
  assert (Hn2 : heap w2 !! node = Some (Node_set_Changed now n))
    by (simpl; apply lookup_insert_eq).
  destruct (nodeToData_run node true w2 _ Hn2) as (o & Ho & Hrun).
  unfold WriteNode. rewrite He. rewrite bind_run. unfold time_Now at 1.
  rewrite bind_run. unfold deref at 1. cbn [heap World_tick]. rewrite Hn.
  rewrite bind_run. unfold store at 1. cbn [heap World_tick].
  fold now. fold w2. rewrite bind_run, Hrun.
  destruct o as [[data [err |]] | r].
  - eexists _, _, []. split; [reflexivity |]. simpl.
    split; [done |]. split; [by rewrite app_nil_r |]. split; [by left | done].
  - destruct (encode_node_data _ _ _ _ _ (Ho w2)) as (outNode & Hnode & Hdata).
    rewrite bind_run. unfold WriteNodeData. rewrite He, bind_run.
    unfold RPCClient_Call at 1.
    destruct (rpc_Call (trace w2) _) as [err | ack];
      (eexists _, _, [_]; split; [reflexivity |]; simpl;
       split; [done |]; split; [done |]; split; [| done];
       right; eexists _, _; split; [reflexivity |]; done).
  - eexists _, _, []. split; [reflexivity |]. simpl.
    split; [done |]. split; [by rewrite app_nil_r |]. split; [by left | done].
Qed.

(** ** [WaitSignal] *)

Ltac trace_filter :=
  rewrite ?list.filter_app, ?filter_cons, ?filter_nil; simpl;
  rewrite ?app_nil_r; try done.

(** [AddSignalHandler] keeps the handler under its name once the broker
    has accepted the connection to the signal. *)
Lemma AddSignalHandler_registers s name handle w ack :
  Error s = None →
  rpc_Call (trace w) (Monsti_ConnectSignal (Client_Id s) name) = inr ack →
  ∃ s', AddSignalHandler s name handle w
        = (Done (None, s'),
           World_log (EvCall (Monsti_ConnectSignal (Client_Id s) name)) w) ∧
        SignalHandlers s' !! name = Some handle.
Proof.
  intros He Hr. unfold AddSignalHandler. rewrite He, bind_run.
  unfold RPCClient_Call at 1. rewrite Hr. eexists. split; [reflexivity |].
  apply lookup_insert_eq.
Qed.

(** C3, amended: when the delivered name has a registered handler,
    [WaitSignal] returns and has invoked that handler exactly once, with
    the decoded argument; when the handler succeeds and its result
    encodes, the result is reported with [Monsti.FinishSignal]. *)
Theorem WaitSignal_invokes_handler s w name args arg handler :
  Error s = None →
  rpc_Call (trace w) (Monsti_WaitSignal (Client_Id s)) = inr (name, args) →
  gob_Decode args = inr arg →
  SignalHandlers s !! name = Some handler →
  ∃ r w',
    WaitSignal s w = (Done r, w') ∧
    handler_calls (trace w') = handler_calls (trace w) ++ [EvHandle name arg] ∧
    (∀ ret buffer,
       handler arg = (ret, None) →
       gob_Encode ret = inr buffer →
       trace w' = trace w ++ [EvCall (Monsti_WaitSignal (Client_Id s));
                              EvHandle name arg;
                              EvCall (Monsti_FinishSignal (Client_Id s) buffer)]).
Proof.
  intros He Hr Hd Hh. unfold WaitSignal, mbind, M_bind, RPCClient_Call, non_nil, log.
  rewrite He, Hr. simpl. rewrite Hd, Hh. simpl.
  destruct (handler arg) as [ret [err |]].
  - eexists _, _. split; [reflexivity |]. simpl. unfold handler_calls.
    split; [by trace_filter | by intros ? ? [=]].
  - destruct (gob_Encode ret) as [err | buffer] eqn:Henc.
    + eexists _, _. split; [reflexivity |]. simpl. unfold handler_calls.
      split; [by trace_filter |]. intros ret' buffer' [= <-] Hb. congruence.
    + simpl. destruct (rpc_Call _ (Monsti_FinishSignal _ _)) as [err | ack];
        (eexists _, _; split; [reflexivity |]; simpl; unfold handler_calls;
         split; [by trace_filter |];
         intros ret' buffer' [= <-] Hb; rewrite Henc in Hb; injection Hb as <-;
         by rewrite <- !app_assoc).
Qed.

(** C4, amended: when the handler returns an error, [WaitSignal] returns
    that error wrapped with the name of the signal, and the world then
    holds the call of [Monsti.WaitSignal] and the invocation of the handler
    and nothing more: no [Monsti.FinishSignal] is sent. *)
Theorem WaitSignal_handler_error s w name args arg handler ret err :
  Error s = None →
  rpc_Call (trace w) (Monsti_WaitSignal (Client_Id s)) = inr (name, args) →
  gob_Decode args = inr arg →
  SignalHandlers s !! name = Some handler →
  handler arg = (ret, Some err) →
  WaitSignal s w
  = (Done (Some (fmt_Errorf_v
                   ("service: Signal handler for " +:+ name +:+ " returned error: ")
                   err)),
     World_log (EvHandle name arg)
       (World_log (EvCall (Monsti_WaitSignal (Client_Id s))) w)).
Proof.
  intros He Hr Hd Hh Hret.
  unfold WaitSignal, mbind, M_bind, RPCClient_Call, non_nil, log.
  rewrite He, Hr. simpl. rewrite Hd, Hh. simpl. by rewrite Hret.
Qed.

(** ** [getConfig] *)

Lemma getConfig_empty_reply out : getConfig [] out = Done (None, out).
Proof. done. Qed.

(** The value under the first key is copied out. *)
Lemma getConfig_first_key reply out object key keys value :
  length reply ≠ 0 →
  json_Unmarshal_map reply = inr object →
  reflect_MapKeys object = key :: keys →
  object !! key = Some (Some value) →
  getConfig reply out = Done (None, value).
Proof.
  intros Hl Hu Hk Hv. unfold getConfig. case_decide; [done |].
  rewrite Hu, Hk. simpl. by rewrite Hv.
Qed.

(** C9, at the reply that breaks it: a reply that decodes to a mapping
    without entries (the JSON documents [{}] and [null]) makes [getConfig]
    index the empty list of keys, which panics. *)
Theorem getConfig_empty_object reply out object :
  length reply ≠ 0 →
  json_Unmarshal_map reply = inr object →
  reflect_MapKeys object = [] →
  getConfig reply out = Panic index_out_of_range.
Proof.
  intros Hl Hu Hk. unfold getConfig. case_decide; [done |].
  by rewrite Hu, Hk.
Qed.

(** ** Decoding *)

(** [dataToNode] once the envelope is read and the type resolved, on a
    type whose field ids have two parts and whose field kinds can be
    built: the node of the envelope with the resolved type and with the
    fields left by the loop over the fresh ones. *)
Lemma dataToNode_run data node t getNodeType m site w w1 :
  length data ≠ 0 →
  json_Unmarshal_node data = inr node →
  getNodeType (nj_Type node) w = (Done (Some t, None), w1) →
  (∀ f, f ∈ declared t (nj_Node node) →
     is_Some (strings_Cut "." (fc_Id f)) ∧ ∃ f0, Field_new f = inr f0) →
  ∃ fields ret evs,
    InitFields (Node_set_Type (Some t) (nj_Node node)) m site w1
    = (Done (Node_set_Fields fields (Node_set_Type (Some t) (nj_Node node)), None), w1) ∧
    (∀ id, id ∉ fc_Id <$> declared t (nj_Node node) → fields !! id = None) ∧
    (∀ field, field ∈ declared t (nj_Node node) →
       ∃ field' f0, field' ∈ declared t (nj_Node node) ∧ fc_Id field' = fc_Id field ∧
                    Field_new field' = inr f0 ∧ fields !! fc_Id field = Some f0) ∧
    for_each (declared t (nj_Node node)) (load_field node)
      (Node_set_Fields fields (Node_set_Type (Some t) (nj_Node node))) w1
    = (Done ret, {| heap := heap w1; trace := trace w1 ++ evs; ticks := ticks w1 |}) ∧
    dataToNode data getNodeType m site w
    = (Done (Some ret, None),
       {| heap := heap w1; trace := trace w1 ++ evs; ticks := ticks w1 |}).
Proof.
  intros Hlen Hjson Hres Hdecl.
  set (ret0 := Node_set_Type (Some t) (nj_Node node)).
  destruct (InitFields_run ret0 t m site w1 eq_refl) as (fields & Hinit & Hout & Hin).
  { intros f Hf. by apply Hdecl. }
  destruct (load_loop node (declared t (nj_Node node)) (Node_set_Fields fields ret0) w1)
    as (ret & evs & Hrun & _).
  { intros f Hf. by apply Hdecl. }
  { intros f Hf. destruct (Hin f Hf) as (? & f0 & _ & _ & _ & Hf0).
    cbn. rewrite Hf0. by eexists. }
  exists fields, ret, evs. split; [done |]. split; [done |]. split; [done |].
  split; [done |]. unfold dataToNode. rewrite decide_False by done. rewrite Hjson. run.
  rewrite Hres. run. fold ret0. rewrite Hinit. run. unfold non_nil. cbn [Type_ ret0 Node_set_Fields Node_set_Type].
  run.
  change (nt_Fields t ++ LocalFields (Node_set_Fields fields ret0))
    with (declared t (nj_Node node)).
  by rewrite Hrun.
Qed.

(** C6: when the envelope is read, its type resolved, the field ids of the
    type and of the node have two parts and their kinds can be built, a
    declared field for which the envelope has no raw dump does not make
    [dataToNode] fail. It returns a node; no [Load] of that field is
    logged; the node holds for it the field [InitFields] made, a field
    fresh from the constructor of a declared configuration with that
    id. *)
Theorem dataToNode_missing_field data node t getNodeType m site w w1 field :
  length data ≠ 0 →
  json_Unmarshal_node data = inr node →
  getNodeType (nj_Type node) w = (Done (Some t, None), w1) →
  (∀ f, f ∈ declared t (nj_Node node) →
     is_Some (strings_Cut "." (fc_Id f)) ∧ ∃ f0, Field_new f = inr f0) →
  field ∈ declared t (nj_Node node) →
  raw_of (nj_Fields node) (fc_Id field) = None →
  ∃ ret w' evs initialized f0,
    dataToNode data getNodeType m site w = (Done (Some ret, None), w') ∧
    trace w' = trace w1 ++ evs ∧
    (∀ raw, EvLoad (fc_Id field) raw ∉ evs) ∧
    InitFields (Node_set_Type (Some t) (nj_Node node)) m site w1
    = (Done (initialized, None), w1) ∧
    Fields initialized !! fc_Id field = Some f0 ∧
    Fields ret !! fc_Id field = Some f0 ∧
    fresh_for (declared t (nj_Node node)) field f0.
Proof.
  intros Hlen Hjson Hres Hdecl Hfield Hmissing.
  destruct (dataToNode_run _ _ _ _ m site _ _ Hlen Hjson Hres Hdecl)
    as (fields & ret & evs & Hinit & Hout & Hin & Hloop & Hrun).
  set (ret0 := Node_set_Fields fields (Node_set_Type (Some t) (nj_Node node)))
    in Hloop, Hinit.
  destruct (load_loop node (declared t (nj_Node node)) ret0 w1)
    as (ret' & evs' & Hloop' & _ & _ & _ & _ & _ & Hsame & Hev).
  { intros f Hf. by apply Hdecl. }
  { intros f Hf. destruct (Hin f Hf) as (? & f0 & _ & _ & _ & Hf0).
    cbn. rewrite Hf0. by eexists. }
  rewrite Hloop in Hloop'. injection Hloop' as <- Hevs%app_inv_head.
  subst evs'.
  destruct (Hin field Hfield) as (field' & f0 & ? & ? & ? & Hf0).
  eexists ret, _, evs, ret0, f0. split; [exact Hrun |]. split; [done |]. split.
  { intros raw Hraw. destruct (Hev _ Hraw) as (id & raw' & [= <- <-] & _ & Hr).
    congruence. }
  split; [exact Hinit |]. split; [exact Hf0 |]. split.
  - rewrite Hsame; [exact Hf0 | by right].
  - by exists field'.
Qed.

Lemma json_carries_raw_of carried e e' id :
  json_carries carried e e' →
  match raw_of (nj_Fields e) id with
  | Some raw => carried raw (raw_of (nj_Fields e') id)
  | None => raw_of (nj_Fields e') id = None
  end.
Proof.
  intros (_ & _ & Hraw). unfold raw_of.
  destruct (strings_Cut "." id) as [[group name] |]; [apply Hraw | done].
Qed.

(** C2, amended: a node that [nodeToData] encodes to [data] is what
    [dataToNode] decodes [data] to, but for its path, which comes back
    empty. It holds for a node with a type, whose fields are all declared
    (by its type or locally; a field the node holds without a declaration
    is not written), when the libraries and the [Field] implementations
    do their part: the JSON of an envelope reads back with the attributes
    of the node and with its raw dumps [carried]; the resolver returns the type of
    the node for its id; every declared kind of field can be built; and a
    field comes back from what is carried of its dump, by [Load] onto a
    fresh field of its id or onto itself when a raw dump is carried, as
    the fresh field when none is. *)
Theorem codec_round_trip node indent w n t data w' getNodeType m site w2
    (carried : bytes → option bytes → Prop) :
  heap w !! node = Some n →
  Type_ n = Some t →
  nodeToData node indent w = (Done (data, None), w') →
  (∀ e b, json_Marshal_node e = inr b ∨ json_MarshalIndent_node e = inr b →
          length b ≠ 0 ∧
          ∃ e', json_Unmarshal_node b = inr e' ∧ json_carries carried e e') →
  (∀ w0, ∃ w1, getNodeType (nt_Id t) w0 = (Done (Some t, None), w1)) →
  (∀ id, is_Some (Fields n !! id) → id ∈ fc_Id <$> declared t n) →
  (∀ field, field ∈ declared t n → ∃ f0, Field_new field = inr f0) →
  (∀ field f raw,
     field ∈ declared t n →
     Fields n !! fc_Id field = Some f →
     json_Marshal (Field_Dump f) = inr raw →
     ∀ back, carried raw back →
       match back with
       | Some raw' =>
           ∀ f0, f0 = f ∨ fresh_for (declared t n) field f0 →
                 (Field_Load f0 raw').1 = f
       | None => ∀ f0, fresh_for (declared t n) field f0 → f0 = f
       end) →
  ∃ w3,
    dataToNode data getNodeType m site w2
    = (Done (Some (Node_set_Path "" n), None), w3).
Proof.
  intros Hn Ht Henc Hjson Hres Hdom Hnew Hload.
  destruct (nodeToData_run node indent w n Hn) as (o & Ho & Hrun).
  rewrite Hrun in Henc. injection Henc as -> _.
  destruct (encode_node_envelope (Node_set_Path "" n) t indent data w w Ht (Ho w))
    as (outNode & Hnode & Htype & Hdata & Hall & Hraw).
  change (declared t (Node_set_Path "" n)) with (declared t n) in Hall, Hraw.
  change (dumped (Node_set_Path "" n)) with (dumped n) in Hall, Hraw.
  destruct (Hjson outNode data) as (Hlen & back & Hback & Hcarries).
  { destruct indent; [by right | by left]. }
  destruct Hcarries as (Hnode' & Htype' & Hcarried).
  assert (Hcarries : json_carries carried outNode back) by done.
  rewrite Hnode in Hnode'. rewrite Htype in Htype'.
  destruct (Hres w2) as [w3 Hres2].
  assert (Hdecl : declared t (nj_Node back) = declared t n)
    by (unfold declared; by rewrite Hnode').
  destruct (dataToNode_run data back t getNodeType m site w2 w3 Hlen Hback)
    as (fields & ret & evs & _ & Hout & Hin & Hloop & Hdec).
  { by rewrite Htype'. }
  { rewrite Hdecl. intros f Hf. split; [by apply Hall | by apply Hnew]. }
  rewrite Hdecl in Hout, Hin, Hloop.
  set (ret0 := Node_set_Fields fields _) in Hloop.
  assert (Hcut : ∀ f, f ∈ declared t n → is_Some (strings_Cut "." (fc_Id f)))
    by (intros f Hf; by apply Hall).
  assert (Hheld : ∀ f, f ∈ declared t n → is_Some (Fields ret0 !! fc_Id f)).
  { intros f Hf. destruct (Hin f Hf) as (? & f0 & _ & _ & _ & Hf0).
    cbn. rewrite Hf0. by eexists. }
  destruct (load_loop back (declared t n) ret0 w3 Hcut Hheld)
    as (ret' & evs' & Hloop' & HP & HT & HC & HL & Hsome & Hsame & _).
  rewrite Hloop in Hloop'. injection Hloop' as <- _.
  eexists. rewrite Hdec. do 3 f_equal.
  assert (HF : Fields ret = Fields n).
  { apply map_eq. intros id.
    destruct (decide (id ∈ fc_Id <$> declared t n)) as [Hid | Hid].
    - pose proof Hid as Hid'.
      apply list_elem_of_fmap in Hid' as (field & -> & Hfield).
      destruct (Hall field Hfield) as [_ [raw Hd]].
      unfold dumped in Hd.
      destruct (Fields n !! fc_Id field) as [f |] eqn:Hf; [| done].
      destruct (json_Marshal (Field_Dump f)) as [err | raw'] eqn:Hm; [done |].
      injection Hd as ->.
      pose proof (json_carries_raw_of _ _ _ (fc_Id field) Hcarries) as Hc.
      rewrite Hraw, decide_True in Hc by done.
      unfold dumped in Hc. rewrite Hf, Hm in Hc.
      pose proof (Hload field f raw Hfield Hf Hm _ Hc) as Hback'.
      destruct (Hin field Hfield) as (field' & f1 & Hin' & Hid1 & Hnew1 & Hf1).
      destruct (raw_of (nj_Fields back) (fc_Id field)) as [raw' |] eqn:Hr.
      + apply (load_loop_target back (declared t n) ret0 ret w3 _
                 (fc_Id field) raw' f Hcut Hheld Hloop Hid Hr).
        intros f0 [Hf0 | ->]; apply Hback'; [right | by left].
        exists field'. cbn in Hf0. rewrite Hf1 in Hf0. by injection Hf0 as <-.
      + rewrite Hsame by (by right). cbn. rewrite Hf1. f_equal.
        apply Hback'. by exists field'.
    - assert (Hnone : Fields ret !! id = None).
      { apply eq_None_not_Some. rewrite Hsome. cbn. rewrite (Hout _ Hid).
        by intros [? ?]. }
      rewrite Hnone. symmetry. apply eq_None_not_Some. intros Hs. by apply Hid, Hdom. }
  cbn in HP, HT, HC, HL. rewrite Hnode' in HP, HC, HL. cbn in HP, HC, HL.
  f_equal. clear - HL HC HT HP HF Ht.
  destruct ret, n. cbn in *. unfold Node_set_Path. cbn. congruence.
Qed.

End Properties.

(** * The concrete world: facts and runs *)

Import Demo.

Lemma pos_to_bytes_cons p : ∃ b r, pos_to_bytes p = b :: r.
Proof. destruct p; by eexists _, _. Qed.

Lemma bytes_to_pos_to_bytes p : bytes_to_pos (pos_to_bytes p) = Some p.
Proof.
  induction p as [q IH | q IH |]; [| | done].
  - cbn [pos_to_bytes bytes_to_pos]. destruct (pos_to_bytes_cons q) as (b & r & Hq).
    rewrite Hq in IH |- *. cbn [Byte.eqb]. by rewrite IH.
  - cbn [pos_to_bytes bytes_to_pos]. destruct (pos_to_bytes_cons q) as (b & r & Hq).
    rewrite Hq in IH |- *. cbn [Byte.eqb]. by rewrite IH.
Qed.

Lemma byte_of_N_to_N b : byte_of_N (Byte.to_N b) = b.
Proof. unfold byte_of_N. by rewrite Byte.of_to_N. Qed.

Lemma wire_locals_inv (locals : list FieldConfig) :
  wire_locals ((λ c, (fc_Id c, fc_Type c)) <$> locals) = locals.
Proof.
  induction locals as [| [id kind] locals IH]; [done |].
  cbn. f_equal. exact IH.
Qed.

Lemma wire_raw_inv (raw : bytes) : byte_of_N <$> (Byte.to_N <$> raw) = raw.
Proof.
  induction raw as [| b raw IH]; [done |].
  cbn. by rewrite byte_of_N_to_N, IH.
Qed.

Lemma wire_fields_inv (raws : gmap string (gmap string bytes)) :
  wire_fields
    ((λ group : gmap string bytes, (λ raw : bytes, Byte.to_N <$> raw) <$> group)
       <$> raws) = raws.
Proof.
  unfold wire_fields. apply map_eq. intros group. rewrite !lookup_fmap.
  destruct (raws !! group) as [inner |]; [| done]. cbn. f_equal.
  apply map_eq. intros name. rewrite !lookup_fmap.
  destruct (inner !! name) as [raw |]; [| done]. cbn. f_equal.
  apply wire_raw_inv.
Qed.

Lemma of_wire_to_wire e : of_wire (to_wire e) = payload e.
Proof.
  destruct e as [[path type changed fields locals] id raws].
  unfold of_wire, to_wire, payload. cbn [fst snd nj_Node nj_Type nj_Fields Path
    Changed LocalFields Node_set_Fields Node_set_Type].
  by rewrite wire_locals_inv, wire_fields_inv.
Qed.

Lemma payload_carries (e : nodeJSON) :
  json_carries (λ raw back, back = Some raw) e (payload e).
Proof.
  split; [done |]. split; [done |]. intros group name. cbn.
  by destruct (default ∅ (nj_Fields e !! group) !! name).
Qed.

(** The demo JSON of envelopes comes back as it went in. *)
Lemma demo_json_round_trip (e : nodeJSON) (b : bytes) :
  json_Marshal_node e = inr b ∨ json_MarshalIndent_node e = inr b →
  length b ≠ 0 ∧ json_Unmarshal_node b = inr (payload e).
Proof.
  intros Hb. assert (b = pos_to_bytes (encode (to_wire e))) as ->
    by (destruct Hb as [Hb | Hb]; by injection Hb).
  split.
  - by destruct (pos_to_bytes_cons (encode (to_wire e))) as (c & r & ->).
  - cbn. unfold demo_Unmarshal_node.
    rewrite bytes_to_pos_to_bytes. cbn. by rewrite decode_encode, of_wire_to_wire.
Qed.

Lemma json_unquote_quote s : json_unquote (json_quote s) = Some s.
Proof.
  unfold json_unquote, json_quote. cbn [Byte.eqb quote].
  rewrite reverse_snoc. cbn [Byte.eqb].
  by rewrite reverse_involutive, String.string_of_list_byte_of_string.
Qed.

(** A demo text field loads from its own JSON, whatever it held. *)
Lemma demo_Load_Dump (f f0 : Field) (raw : bytes) :
  json_Marshal (Field_Dump f) = inr raw → (Field_Load f0 raw).1 = f.
Proof.
  intros [= <-]. cbn. unfold demo_Load. by rewrite json_unquote_quote.
Qed.

Lemma about_fields_declared id :
  is_Some (Fields about !! id) → id ∈ fc_Id <$> declared page about.
Proof.
  intros [f Hf]. unfold about in Hf. cbn in Hf.
  apply lookup_insert_Some in Hf as [[<- _] | [_ Hf]]; [set_solver |].
  apply lookup_singleton_Some in Hf as [<- _]. set_solver.
Qed.

Lemma demo_resolver (w0 : World) :
  ∃ w1, GetNodeType worker (nt_Id page) w0 = (Done (Some page, None), w1).
Proof. by eexists. Qed.

(** The client whose connection failed: [WriteNode] and [GetNode] return
    without an error. *)
Lemma sticky_error_dropped_witness :
  Error broken = Some (errors_New "dial unix monsti.socket: connection refused") ∧
  WriteNode broken "example" "/about" 1%positive world0 = (Done None, world0) ∧
  GetNode broken "example" "/about" world0 = (Done (None, None), world0).
Proof.
  split; [reflexivity |].
  pose proof (sticky_error_dropped broken _ world0 eq_refl) as (Hw & Hg & _).
  split; [apply Hw | apply Hg].
Defined.

(** The node ["/about"] survives encoding and decoding, but for its
    path. *)
Lemma codec_round_trip_witness :
  nodeToData 1%positive false world0 = (Done (about_data, None), world0) ∧
  ∃ w3, dataToNode about_data (GetNodeType worker) worker "example" world0
        = (Done (Some (Node_set_Path "" about), None), w3).
Proof.
  assert (Henc : nodeToData 1%positive false world0 = (Done (about_data, None), world0))
    by (vm_compute; reflexivity).
  split; [exact Henc |].
  apply (codec_round_trip 1%positive false world0 about page about_data world0
           (GetNodeType worker) worker "example" world0
           (λ raw back, back = Some raw)).
  - reflexivity.
  - reflexivity.
  - exact Henc.
  - intros e b Hb. destruct (demo_json_round_trip e b Hb) as [Hlen Hback].
    split; [exact Hlen |]. exists (payload e). split; [exact Hback |].
    apply payload_carries.
  - exact demo_resolver.
  - exact about_fields_declared.
  - intros field _. by eexists.
  - intros field f raw _ _ Hraw back ->. intros f0 _. by apply demo_Load_Dump.
Defined.

(** C2 fails on the code: the node [labelled] has the type ["page"], the
    resolver returns that type, and the node holds the field
    ["core.tags"], which the type does not declare. [nodeToData] writes the
    declared fields only and returns no error; [dataToNode] decodes the
    data to a node without ["core.tags"], which is not the node that went
    in with its path cleared. *)
Lemma codec_drops_undeclared_field :
  heap shelf !! 1%positive = Some labelled ∧
  Type_ labelled = Some page ∧
  (∀ w0, ∃ w1, GetNodeType worker (nt_Id page) w0 = (Done (Some page, None), w1)) ∧
  Fields labelled !! "core.tags" = Some "a,b" ∧
  ∃ data,
    nodeToData 1%positive false shelf = (Done (data, None), shelf) ∧
    (∃ w3, dataToNode data (GetNodeType worker) worker "example" shelf
           = (Done (Some (Node_set_Path "" about), None), w3)) ∧
    Fields (Node_set_Path "" about) !! "core.tags" = None ∧
    ¬ ∃ w3, dataToNode data (GetNodeType worker) worker "example" shelf
            = (Done (Some (Node_set_Path "" labelled), None), w3).
Proof.
  split; [reflexivity |]. split; [reflexivity |]. split; [exact demo_resolver |].
  split; [reflexivity |].
  exists (match (nodeToData 1%positive false shelf).1 with
          | Done (data, _) => data
          | Panic _ => []
          end).
  split; [vm_compute; reflexivity |].
  assert (Hdec : (dataToNode
                    (match (nodeToData 1%positive false shelf).1 with
                     | Done (data, _) => data
                     | Panic _ => []
                     end) (GetNodeType worker) worker "example" shelf).1
                 = Done (Some (Node_set_Path "" about), None))
    by (vm_compute; reflexivity).
  split; [| split; [reflexivity |]].
  - eexists. apply injective_projections; [exact Hdec | reflexivity].
  - intros [w3 Hrun]. rewrite Hrun in Hdec. cbn [fst] in Hdec.
    apply (f_equal (λ o : outcome (option Node * option error),
                      match o with
                      | Done (Some n, _) => Fields n !! "core.tags"
                      | _ => None
                      end)) in Hdec.
    vm_compute in Hdec. discriminate Hdec.
Qed.

(** The worker handles the delivered ["beforeSave"] once. *)
Lemma WaitSignal_invokes_handler_witness :
  ∃ r w', WaitSignal worker world0 = (Done r, w') ∧
          handler_calls (trace w') = [EvHandle "beforeSave" "/x"] ∧
          trace w' = [EvCall (Monsti_WaitSignal "worker");
                      EvHandle "beforeSave" "/x";
                      EvCall (Monsti_FinishSignal "worker"
                                (String.list_byte_of_string "/x"))].
Proof.
  destruct (WaitSignal_invokes_handler worker world0 "beforeSave"
              (String.list_byte_of_string "/x") "/x" (λ v : string, (v, None)))
    as (r & w' & Hrun & Hcalls & Hreport); [reflexivity .. |].
  exists r, w'. split; [exact Hrun |]. split; [exact Hcalls |].
  apply (Hreport "/x" (String.list_byte_of_string "/x")); reflexivity.
Defined.

(** C3 fails on the code: the broker delivers ["beforeSave"] to a client
    that has no handler for it, and [WaitSignal] panics on the call of the
    missing handler; it returns no error value. *)
Lemma WaitSignal_without_handler :
  SignalHandlers idle !! "beforeSave" = None ∧
  rpc_Call (trace world0) (Monsti_WaitSignal (Client_Id idle))
  = inr ("beforeSave", String.list_byte_of_string "/x") ∧
  (WaitSignal idle world0).1 = Panic nil_dereference ∧
  ¬ ∃ err w', WaitSignal idle world0 = (Done (Some err), w').
Proof.
  split; [reflexivity |]. split; [reflexivity |].
  assert (H : (WaitSignal idle world0).1 = Panic nil_dereference)
    by (vm_compute; reflexivity).
  split; [exact H |]. intros (err & w' & Hret). by rewrite Hret in H.
Qed.

(** The handler of [refuser] fails: its error comes back and the world
    holds no more than the wait and the handler call. *)
Lemma WaitSignal_handler_error_witness :
  WaitSignal refuser world0
  = (Done (Some (errors_New
        "service: Signal handler for beforeSave returned error: save refused")),
     World_log (EvHandle "beforeSave" "/x")
       (World_log (EvCall (Monsti_WaitSignal "refuser")) world0)).
Proof.
  apply (WaitSignal_handler_error refuser world0 "beforeSave"
           (String.list_byte_of_string "/x") "/x"
           (λ _ : string, (EmptyString, Some (errors_New "save refused")))
           EmptyString (errors_New "save refused"));
    reflexivity.
Defined.

(** C4 fails on the code: the handler of [refuser] returns an error, and
    [WaitSignal] returns an error without any [Monsti.FinishSignal] among
    its transport calls. *)
Lemma WaitSignal_no_FinishSignal :
  ¬ ∃ err w',
      WaitSignal refuser world0 = (Done (Some err), w') ∧
      ∃ id ret, EvCall (Monsti_FinishSignal id ret) ∈ trace w'.
Proof.
  intros (err & w' & Hrun & id & ret & Hin).
  assert (Htrace : trace (WaitSignal refuser world0).2
                   = [EvCall (Monsti_WaitSignal "refuser"); EvHandle "beforeSave" "/x"])
    by (vm_compute; reflexivity).
  rewrite Hrun in Htrace. cbn in Htrace. rewrite Htrace in Hin.
  apply elem_of_cons in Hin as [Hin | Hin]; [discriminate |].
  apply elem_of_cons in Hin as [Hin | Hin]; [discriminate |].
  by apply elem_of_nil in Hin.
Qed.

(** The broker has nothing stored under ["/about"]: [GetNode] returns
    [(nil, nil)]. *)
Lemma dataToNode_empty_witness :
  GetNode worker "example" "/about" world0
  = (Done (None, None), World_log (EvCall (Monsti_GetNode "example" "/about")) world0).
Proof.
  apply (proj2 dataToNode_empty worker "example" "/about" world0); reflexivity.
Defined.

(** The envelope without a body decodes to a node whose ["core.body"] is
    a fresh (empty) text field. *)
Lemma dataToNode_missing_field_witness :
  ∃ ret w' evs initialized f0,
    dataToNode untitled_data (GetNodeType worker) worker "example" world0
    = (Done (Some ret, None), w') ∧
    trace w' = [EvCall (Monsti_GetNodeType "page")] ++ evs ∧
    (∀ raw, EvLoad "core.body" raw ∉ evs) ∧
    InitFields (Node_set_Type (Some page) (nj_Node (payload untitled))) worker
      "example" (World_log (EvCall (Monsti_GetNodeType "page")) world0)
    = (Done (initialized, None),
       World_log (EvCall (Monsti_GetNodeType "page")) world0) ∧
    Fields initialized !! "core.body" = Some f0 ∧
    Fields ret !! "core.body" = Some f0 ∧
    fresh_for (declared page (nj_Node (payload untitled))) core_body f0.
Proof.
  apply (dataToNode_missing_field untitled_data (payload untitled) page
           (GetNodeType worker) worker "example" world0
           (World_log (EvCall (Monsti_GetNodeType "page")) world0)
           core_body).
  - vm_compute. discriminate.
  - apply demo_json_round_trip. by left.
  - reflexivity.
  - intros f Hf. split; [| by eexists].
    cbn in Hf. apply elem_of_cons in Hf as [-> | Hf]; [by eexists |].
    apply elem_of_cons in Hf as [-> | Hf]; [by eexists |].
    by apply elem_of_nil in Hf.
  - cbn. set_solver.
  - vm_compute. reflexivity.
Defined.

(** Encoding ["/about"] gives the world back as it was. *)
Lemma nodeToData_restores_node_witness :
  (nodeToData 1%positive true world0).2 = world0 ∧
  heap world0 !! 1%positive = Some about.
Proof.
  split; [| reflexivity].
  apply (proj1 (nodeToData_restores_node 1%positive true world0)).
Defined.

(** The broker holds request 7: asking for 7 finds it, asking for 8 finds
    nothing. *)
Lemma GetRequest_by_id_witness :
  GetRequest worker 7 world0
  = (Done (Some request7, None), World_log (EvCall (Monsti_GetRequest 7)) world0) ∧
  GetRequest worker 8 world0
  = (Done (None, None), World_log (EvCall (Monsti_GetRequest 8)) world0).
Proof.
  split.
  - destruct (GetRequest_by_id worker 7 world0 request7) as [Hfound _];
      [reflexivity | reflexivity |].
    apply Hfound. reflexivity.
  - destruct (GetRequest_by_id worker 8 world0 request7) as [_ Hmissing];
      [reflexivity | reflexivity |].
    apply Hmissing. discriminate.
Defined.

(** The reply [{}] makes [getConfig] panic. *)
Lemma getConfig_empty_object_witness :
  getConfig (T := demo_types) (String.list_byte_of_string "{}") "unset"
  = Panic index_out_of_range.
Proof.
  apply (getConfig_empty_object (T := demo_types)
           (String.list_byte_of_string "{}") "unset" ∅).
  - vm_compute. discriminate.
  - reflexivity.
  - reflexivity.
Defined.

(** Writing ["/about"] at the first reading of the clock. *)
Lemma WriteNode_stamps_Changed_witness :
  ∃ r w' evs,
    WriteNode worker "example" "/about" 1%positive world0 = (r, w') ∧
    heap w' = <[1%positive := Node_set_Changed 1400000000%Z about]> (heap world0) ∧
    trace w' = evs ∧
    (evs = [] ∨
     ∃ data outNode,
       evs = [EvCall (Monsti_WriteNodeData "example" "/about" "node.json" data)] ∧
       json_MarshalIndent_node outNode = inr data ∧
       nj_Node outNode = Node_set_Path "" (Node_set_Changed 1400000000%Z about)) ∧
    (r = Done None → evs ≠ []).
Proof.
  exact (WriteNode_stamps_Changed worker "example" "/about" 1%positive world0 about
           eq_refl eq_refl).
Defined.

(** * More of the code *)

(** ** [splitAction] *)

Lemma Cut_slash_cons c s :
  strings_Cut "/" (String c s)
  = if Ascii.eqb slash c then Some (EmptyString, s)
    else match strings_Cut "/" s with
         | Some (before, after) => Some (String c before, after)
         | None => None
         end.
Proof.
  change slash with (Ascii.Ascii true true true true false true false false).
  cbn [strings_Cut has_prefix String.length drop_chars].
  by destruct (Ascii.eqb _ c).
Qed.

Lemma append_cons c s x : String c s +:+ x = String c (s +:+ x).
Proof. done. Qed.

Lemma append_nil x : EmptyString +:+ x = x.
Proof. done. Qed.

Lemma append_assoc x y z : (x +:+ y) +:+ z = x +:+ y +:+ z.
Proof.
  induction x as [| c x IH]; [done |].
  rewrite !append_cons. by rewrite IH.
Qed.

Lemma length_append x y :
  String.length (x +:+ y) = String.length x + String.length y.
Proof.
  induction x as [| c x IH]; [done |].
  rewrite append_cons. cbn [String.length]. by rewrite IH.
Qed.

Lemma take_chars_append x y : take_chars (String.length x) (x +:+ y) = x.
Proof.
  induction x as [| c x IH]; [done |].
  rewrite append_cons. cbn [String.length take_chars]. by rewrite IH.
Qed.

(** The first ["/"] of a text is the first ["/"] of its head, when the head
    has one, and the one that follows the head when it has none. *)
Lemma Cut_slash_app_Some pre before after x :
  strings_Cut "/" pre = Some (before, after) →
  strings_Cut "/" (pre +:+ x) = Some (before, after +:+ x).
Proof.
  revert before. induction pre as [| c pre IH]; intros before; [done |].
  rewrite append_cons, !Cut_slash_cons.
  destruct (Ascii.eqb slash c); [by intros [= <- <-] |].
  destruct (strings_Cut "/" pre) as [[b a] |]; [| done].
  intros [= <- <-]. by rewrite (IH b).
Qed.

Lemma Cut_slash_app_None pre t :
  strings_Cut "/" pre = None →
  strings_Cut "/" (pre +:+ "/" +:+ t) = Some (pre, t).
Proof.
  induction pre as [| c pre IH]; [done |].
  rewrite append_cons, !Cut_slash_cons.
  destruct (Ascii.eqb slash c); [done |].
  destruct (strings_Cut "/" pre) as [[b a] |]; [done |].
  intros _. by rewrite IH.
Qed.

(** A text with a ["/"] ends in a ["/"] followed by a text without. *)
Lemma last_slash s :
  is_Some (strings_Cut "/" s) →
  ∃ pre t, s = pre +:+ "/" +:+ t ∧ strings_Cut "/" t = None.
Proof.
  induction s as [| c s IH]; [by intros [? ?] |].
  intros Hs. destruct (strings_Cut "/" s) as [[b a] |] eqn:Hcut.
  - destruct IH as (pre & t & -> & Ht); [by eexists |].
    by exists (String c pre), t.
  - rewrite Cut_slash_cons, Hcut in Hs.
    destruct (Ascii.eqb_spec slash c) as [<- |]; [| by destruct Hs].
    by exists EmptyString, s.
Qed.

Lemma SplitN_step s sep n :
  strings_SplitN s sep (S (S n))
  = match strings_Cut sep s with
    | Some (before, after) => before :: strings_SplitN after sep (S n)
    | None => [s]
    end.
Proof. done. Qed.

Lemma SplitN_no_slash s n :
  strings_Cut "/" s = None → strings_SplitN s "/" (S n) = [s].
Proof. intros Hs. destruct n; [done |]. by rewrite SplitN_step, Hs. Qed.

(** The last part of a path split at every ["/"] is what follows its last
    ["/"]. *)
Lemma SplitN_last n pre t :
  strings_Cut "/" t = None →
  String.length pre < n →
  list.last (strings_SplitN (pre +:+ "/" +:+ t) "/" (S n)) = Some t.
Proof.
  intros Ht. revert pre. induction n as [| n IH]; intros pre Hlen; [lia |].
  rewrite SplitN_step.
  destruct (strings_Cut "/" pre) as [[b a] |] eqn:Hpre.
  - rewrite (Cut_slash_app_Some _ _ _ _ Hpre).
    apply strings_Cut_join in Hpre as Hjoin.
    assert (String.length a < n).
    { rewrite Hjoin, !length_append in Hlen. cbn in Hlen. lia. }
    rewrite list.last_cons, IH by done. done.
  - rewrite (Cut_slash_app_None _ _ Hpre).
    by rewrite list.last_cons, (SplitN_no_slash _ _ Ht).
Qed.

Lemma index_last {A} (l : list A) x :
  list.last l = Some x → index l (length l - 1) = Done x.
Proof.
  intros Hl. unfold index. rewrite list.last_lookup in Hl.
  replace (length l - 1) with (pred (length l)) by lia. by rewrite Hl.
Qed.

(** The last token [splitAction] looks at. *)
Lemma Split_last_token pre t :
  strings_Cut "/" t = None →
  index (strings_Split (pre +:+ "/" +:+ t) "/")
    (length (strings_Split (pre +:+ "/" +:+ t) "/") - 1) = Done t.
Proof.
  intros Ht. apply index_last. unfold strings_Split. apply SplitN_last; [done |].
  rewrite !length_append. cbn. lia.
Qed.

Lemma Cut_slash_at a :
  strings_Cut "/" a = None → strings_Cut "/" ("@@" +:+ a) = None.
Proof.
  intros Ha. change ("@@" +:+ a) with (String at_sign (String at_sign a)).
  rewrite !Cut_slash_cons, Ha. done.
Qed.

Lemma splitAction_at pre action :
  action ≠ EmptyString →
  strings_Cut "/" action = None →
  splitAction (pre +:+ "/@@" +:+ action)
  = Done (if decide (pre = EmptyString) then "/" else pre, action).
Proof.
  intros Hne Hno.
  assert (Hlen : 0 < String.length action) by (destruct action; [done | cbn; lia]).
  unfold splitAction.
  change (pre +:+ "/@@" +:+ action) with (pre +:+ "/" +:+ ("@@" +:+ action)).
  rewrite (Split_last_token _ _ (Cut_slash_at _ Hno)).
  change (String.length ("@@" +:+ action)) with (S (S (String.length action))).
  change (take_chars 2 ("@@" +:+ action)) with "@@".
  change (drop_chars 2 ("@@" +:+ action)) with action.
  replace (Nat.ltb 2 (S (S (String.length action)))) with true
    by (symmetry; apply Nat.ltb_lt; lia).
  cbn [andb String.eqb Ascii.eqb Bool.eqb]. change (String.eqb "@@" "@@") with true.
  cbv iota.
  replace (Nat.ltb 0 (String.length action)) with true
    by (symmetry; by apply Nat.ltb_lt).
  unfold slice_to. rewrite !length_append. cbn [String.length].
  rewrite decide_True by lia.
  replace (Z.to_nat _) with (String.length pre) by lia.
  rewrite take_chars_append.
  destruct pre as [| c pre]; [done |]. by rewrite decide_False.
Qed.

Lemma starts_with_at t :
  2 < String.length t → take_chars 2 t = "@@" → t = "@@" +:+ drop_chars 2 t.
Proof.
  destruct t as [| c1 [| c2 t]]; cbn; [lia | lia |].
  intros _ [= -> ->]. done.
Qed.

Lemma splitAction_plain path t :
  strings_Cut "/" t = None →
  path = t ∨ (∃ pre, path = pre +:+ "/" +:+ t) →
  names_action t = false →
  splitAction path = Done (path, EmptyString).
Proof.
  intros Ht Hpath Htest. unfold splitAction.
  assert (Hlast : index (strings_Split path "/")
                    (length (strings_Split path "/") - 1) = Done t).
  { destruct Hpath as [-> | [pre ->]]; [| by apply Split_last_token].
    unfold strings_Split. by rewrite (SplitN_no_slash _ _ Ht). }
  rewrite Hlast. fold (names_action t). by rewrite Htest.
Qed.

(** X1: a path that ends in ["/@@"] and a non-empty action without ["/"]
    is split into what stands before (["/"] when nothing does) and the
    action. *)
Theorem splitAction_action pre action :
  action ≠ EmptyString →
  strings_Cut "/" action = None →
  splitAction (pre +:+ "/@@" +:+ action)
  = Done (if decide (pre = EmptyString) then "/" else pre, action).
Proof. apply splitAction_at. Qed.

(** X2: a path whose last token (what follows its last ["/"], or all of it)
    does not start with ["@@"], or is no longer than ["@@"], has no action
    and is returned as it is. *)
Theorem splitAction_no_action path t :
  strings_Cut "/" t = None →
  path = t ∨ (∃ pre, path = pre +:+ "/" +:+ t) →
  ¬ (2 < String.length t ∧ take_chars 2 t = "@@") →
  splitAction path = Done (path, EmptyString).
Proof.
  intros Ht Hpath Hno. apply (splitAction_plain path t Ht Hpath).
  unfold names_action. apply andb_false_iff.
  destruct (Nat.ltb_spec 2 (String.length t)) as [Hlen |]; [| by left].
  right. apply String.eqb_neq. intros Heq. by apply Hno.
Qed.

(** X3: on a path with a ["/"] [splitAction] does not panic and the node
    path it returns is not empty; without an action the node path is the
    path, and with one the path is the node path (nothing, when the node
    path is the ["/"] put in for nothing), then ["/@@"], then the action,
    which has no ["/"]. *)
Theorem splitAction_rooted path :
  is_Some (strings_Cut "/" path) →
  ∃ nodePath action,
    splitAction path = Done (nodePath, action) ∧
    nodePath ≠ EmptyString ∧
    strings_Cut "/" action = None ∧
    (action = EmptyString → nodePath = path) ∧
    (action ≠ EmptyString →
     ∃ pre, path = pre +:+ "/@@" +:+ action ∧
            nodePath = if decide (pre = EmptyString) then "/" else pre).
Proof.
  intros Hs. destruct (last_slash path Hs) as (pre & t & -> & Ht).
  destruct (names_action t) eqn:Htest.
  - apply andb_true_iff in Htest as [Hlen%Nat.ltb_lt Hat%String.eqb_eq].
    pose proof (starts_with_at t Hlen Hat) as Hstart.
    assert (Hne : drop_chars 2 t ≠ EmptyString).
    { clear - Hlen. destruct t as [| c1 [| c2 [| c3 t]]]; cbn in *; [lia .. | done]. }
    set (action := drop_chars 2 t) in *.
    assert (Hno : strings_Cut "/" action = None).
    { rewrite Hstart in Ht.
      change ("@@" +:+ action) with (String at_sign (String at_sign action)) in Ht.
      rewrite !Cut_slash_cons in Ht.
      change (Ascii.eqb slash at_sign) with false in Ht. cbv iota in Ht.
      by destruct (strings_Cut "/" action) as [[? ?] |]. }
    rewrite Hstart.
    change (pre +:+ "/" +:+ "@@" +:+ action) with (pre +:+ "/@@" +:+ action).
    eexists _, action. split; [by apply splitAction_at |].
    split; [by destruct pre |]. split; [done |]. split; [done |].
    intros _. by exists pre.
  - exists (pre +:+ "/" +:+ t), EmptyString.
    split; [apply (splitAction_plain _ t Ht); [right; by exists pre | done] |].
    split; [by destruct pre |]. split; [done |]. split; [done | done].
Qed.

(** X4: a path without a ["/"] that starts with ["@@"] and goes on panics:
    the slice that drops ["/@@"] and the action ends below zero. *)
Theorem splitAction_unrooted_panics action :
  action ≠ EmptyString →
  strings_Cut "/" action = None →
  splitAction ("@@" +:+ action) = Panic slice_out_of_range.
Proof.
  intros Hne Hno.
  assert (Hlen : 0 < String.length action) by (destruct action; [done | cbn; lia]).
  unfold splitAction, strings_Split.
  rewrite (SplitN_no_slash _ _ (Cut_slash_at _ Hno)).
  change (index [_] _) with (Done ("@@" +:+ action)). cbv iota.
  change (String.length ("@@" +:+ action)) with (S (S (String.length action))).
  change (take_chars 2 ("@@" +:+ action)) with "@@".
  change (drop_chars 2 ("@@" +:+ action)) with action.
  replace (Nat.ltb 2 (S (S (String.length action)))) with true
    by (symmetry; apply Nat.ltb_lt; lia).
  change (String.eqb "@@" "@@") with true. cbn [andb]. cbv iota.
  replace (Nat.ltb 0 (String.length action)) with true
    by (symmetry; by apply Nat.ltb_lt).
  unfold slice_to. rewrite decide_False by lia. done.
Qed.

Section Coverage.
Context {T : Types} {X : Externals}.

Ltac run :=
  repeat first [rewrite bind_run | rewrite ret_run | progress cbv beta iota zeta].
Ltac run_in H :=
  repeat first [rewrite bind_run in H | rewrite ret_run in H
               | progress cbv beta iota zeta in H].

(** ** More on [nodeToData] *)

Lemma for_range_app {A S R} (body : A → S → M (S + R)) l1 l2 s w :
  for_range (l1 ++ l2) body s w
  = match for_range l1 body s w with
    | (Done (inl s'), w') => for_range l2 body s' w'
    | other => other
    end.
Proof.
  revert s w. induction l1 as [| x l1 IH]; intros s w; [done |].
  cbn [app for_range]. rewrite !bind_run.
  destruct (body x s w) as [[[s' | v] | r] w']; [apply IH | done | done].
Qed.

Lemma for_each_app {A S} (body : A → S → M S) l1 l2 s w :
  for_each (l1 ++ l2) body s w
  = match for_each l1 body s w with
    | (Done s', w') => for_each l2 body s' w'
    | other => other
    end.
Proof.
  revert s w. induction l1 as [| x l1 IH]; intros s w; [done |].
  cbn [app for_each]. rewrite !bind_run.
  destruct (body x s w) as [[s' | r] w']; [apply IH | done].
Qed.

Lemma dump_field_well n field outNode w :
  dumps_well n field →
  ∃ outNode', dump_field n field outNode w = (Done (inl outNode'), w).
Proof.
  intros [[[g nm] Hc] [raw Hd]]. unfold dumped in Hd.
  destruct (Fields n !! fc_Id field) as [f |] eqn:Hf; [| done].
  destruct (json_Marshal (Field_Dump f)) as [err | raw'] eqn:Hm; [done |].
  unfold dump_field, non_nil, lift, index. rewrite SplitN_dot, Hc, Hf. run.
  rewrite Hm. run. cbn [lookup list_lookup]. run. by eexists.
Qed.

Lemma dump_loop_well n l outNode w :
  (∀ field, field ∈ l → dumps_well n field) →
  ∃ outNode', for_range l (dump_field n) outNode w = (Done (inl outNode'), w).
Proof.
  revert outNode. induction l as [| field l IH]; intros outNode Hl.
  - by exists outNode.
  - cbn [for_range]. rewrite bind_run.
    destruct (dump_field_well n field outNode w) as [o1 ->];
      [by apply Hl, elem_of_cons; left |].
    apply IH. intros f Hf. by apply Hl, elem_of_cons; right.
Qed.

(** What stops the loop of [nodeToData] at a field. *)
Lemma dump_field_stop n field outNode w :
  dump_field n field outNode w
  = match Fields n !! fc_Id field with
    | None => (Panic nil_dereference, w)
    | Some f =>
        match json_Marshal (Field_Dump f) with
        | inl err =>
            (Done (inr ([], Some (fmt_Errorf_v "Could not marshal field: " err))), w)
        | inr raw =>
            match strings_Cut "." (fc_Id field) with
            | None => (Panic index_out_of_range, w)
            | Some (group, name) =>
                (Done (inl (nodeJSON_set_Fields
                              (<[group := <[name := raw]>
                                   (default ∅ (nj_Fields outNode !! group))]>
                                 (nj_Fields outNode)) outNode)), w)
            end
        end
    end.
Proof.
  unfold dump_field, non_nil, lift, index. rewrite SplitN_dot.
  destruct (Fields n !! fc_Id field) as [f |]; [| done]. run.
  destruct (json_Marshal (Field_Dump f)) as [err | raw]; [done |]. run.
  by destruct (strings_Cut "." (fc_Id field)) as [[g nm] |].
Qed.

(** [encode_node] when the fields before [field] can be written. *)
Lemma encode_node_stop n t indent l1 field l2 w :
  Type_ n = Some t →
  declared t n = l1 ++ field :: l2 →
  (∀ f, f ∈ l1 → dumps_well n f) →
  (Fields n !! fc_Id field = None →
   encode_node n indent w = (Panic nil_dereference, w)) ∧
  (∀ f err,
     Fields n !! fc_Id field = Some f →
     json_Marshal (Field_Dump f) = inl err →
     encode_node n indent w
     = (Done ([], Some (fmt_Errorf_v "Could not marshal field: " err)), w)) ∧
  (∀ f raw,
     Fields n !! fc_Id field = Some f →
     json_Marshal (Field_Dump f) = inr raw →
     strings_Cut "." (fc_Id field) = None →
     encode_node n indent w = (Panic index_out_of_range, w)).
Proof.
  intros Ht Hdecl Hl1.
  unfold encode_node. rewrite Ht. unfold non_nil. run.
  change (nt_Fields t ++ LocalFields n) with (declared t n). rewrite Hdecl.
  rewrite for_range_app.
  destruct (dump_loop_well n l1 {| nj_Node := n; nj_Type := nt_Id t; nj_Fields := ∅ |}
              w Hl1) as [o1 ->].
  cbn [for_range]. rewrite bind_run, dump_field_stop.
  split; [| split].
  - by intros ->.
  - intros f err -> ->. by run.
  - by intros f raw -> -> ->.
Qed.

Lemma lookup2_insert (fields : gmap string (gmap string bytes)) g0 nm0 dump g nm :
  default ∅ (<[g0 := <[nm0 := dump]> (default ∅ (fields !! g0))]> fields !! g) !! nm
  = if decide (g = g0 ∧ nm = nm0) then Some dump
    else default ∅ (fields !! g) !! nm.
Proof.
  destruct (decide (g = g0)) as [-> | Hg].
  - rewrite lookup_insert_eq. cbn. destruct (decide (nm = nm0)) as [-> | Hnm].
    + rewrite lookup_insert_eq. by rewrite decide_True.
    + rewrite lookup_insert_ne by done. rewrite decide_False; [done | by intros [_ ?]].
  - rewrite lookup_insert_ne by done. rewrite decide_False; [done | by intros [? _]].
Qed.

(** The loop of [nodeToData] writes under the two parts of the ids it goes
    through and nowhere else. *)
Lemma dump_loop_only n l outNode outNode' w w' g nm raw :
  for_range l (dump_field n) outNode w = (Done (inl outNode'), w') →
  default ∅ (nj_Fields outNode' !! g) !! nm = Some raw →
  default ∅ (nj_Fields outNode !! g) !! nm = Some raw ∨
  ∃ field, field ∈ l ∧ strings_Cut "." (fc_Id field) = Some (g, nm).
Proof.
  revert outNode w. induction l as [| field l IH]; intros outNode w Hl Hraw.
  - injection Hl as <- _. by left.
  - cbn [for_range] in Hl. rewrite bind_run in Hl.
    destruct (dump_field n field outNode w) as [[[o1 | ret] | r] w1] eqn:Hd;
      [| done | done].
    destruct (IH _ _ Hl Hraw) as [H1 | (f & Hf & Hc)].
    + apply dump_field_next in Hd as (f & raw' & g0 & nm0 & _ & _ & Hc & ->).
      cbn [nj_Fields nodeJSON_set_Fields] in H1. rewrite lookup2_insert in H1.
      case_decide as Heq; [| by left].
      destruct Heq as [-> ->]. right. exists field.
      split; [by apply elem_of_cons; left | done].
    + right. exists f. split; [by apply elem_of_cons; right | done].
Qed.

(** X5: the data [nodeToData] returns is the JSON of an envelope that
    holds the node with its path cleared, the id of its type and, under
    [group] and [name], the JSON of the dump of every field declared with
    the id [group.name], and nothing under any other group and name. *)
Theorem nodeToData_envelope node indent w n t data w' :
  heap w !! node = Some n →
  Type_ n = Some t →
  nodeToData node indent w = (Done (data, None), w') →
  ∃ outNode,
    (if indent then json_MarshalIndent_node outNode
     else json_Marshal_node outNode) = inr data ∧
    nj_Node outNode = Node_set_Path "" n ∧
    nj_Type outNode = nt_Id t ∧
    (∀ field, field ∈ declared t n →
       ∃ f raw, Fields n !! fc_Id field = Some f ∧
                json_Marshal (Field_Dump f) = inr raw ∧
                raw_of (nj_Fields outNode) (fc_Id field) = Some raw) ∧
    (∀ group name raw,
       default ∅ (nj_Fields outNode !! group) !! name = Some raw →
       ∃ field, field ∈ declared t n ∧
                strings_Cut "." (fc_Id field) = Some (group, name)).
Proof.
  intros Hn Ht Henc.
  destruct (nodeToData_run node indent w n Hn) as (o & Ho & Hrun).
  rewrite Hrun in Henc. injection Henc as -> _. specialize (Ho w).
  unfold encode_node in Ho. rewrite bind_run in Ho.
  change (Type_ (Node_set_Path "" n)) with (Type_ n) in Ho. rewrite Ht in Ho.
  unfold non_nil in Ho. run_in Ho.
  change (nt_Fields t ++ LocalFields (Node_set_Path "" n)) with (declared t n) in Ho.
  destruct (for_range (declared t n) _ _ w) as [[[outNode | ret] | r] w1] eqn:Hl;
    [| | done].
  - destruct (dump_loop_node _ _ _ _ _ _ Hl) as [Hnode Htype].
    destruct (dump_loop_fields _ _ _ _ _ _ Hl) as [Hall Hraw].
    exists outNode. split; [| split; [done | split; [done | split]]].
    + destruct indent.
      * destruct (json_MarshalIndent_node outNode); [done |]. by injection Ho as ->.
      * destruct (json_Marshal_node outNode); [done |]. by injection Ho as ->.
    + intros field Hfield. destruct (Hall field Hfield) as [_ [raw Hd]].
      pose proof Hd as Hd'. unfold dumped in Hd'.
      change (Fields (Node_set_Path "" n)) with (Fields n) in Hd'.
      destruct (Fields n !! fc_Id field) as [f |]; [| done].
      destruct (json_Marshal (Field_Dump f)) as [err | raw'] eqn:Hm; [done |].
      injection Hd' as ->. exists f, raw. split; [done |]. split; [done |].
      rewrite Hraw, decide_True; [done |]. by apply list_elem_of_fmap_2.
    + intros g nm raw Hin.
      destruct (dump_loop_only _ _ _ _ _ _ g nm raw Hl Hin) as [Hempty | Hfield];
        [| done].
      cbn in Hempty. by rewrite lookup_empty in Hempty.
  - apply dump_loop_return in Hl as [err Herr]. injection Ho as -> _. done.
Qed.


(** X7: the first declared field that cannot be written decides how
    [nodeToData] ends, with the node as it was: a field the node does not
    hold is a nil dereference; a dump without a JSON is the error ["Could
    not marshal field"] with nil data; an id without a ["."], when the
    dump has a JSON, is an index out of range. *)
Theorem nodeToData_first_obstacle node indent w n t l1 field l2 :
  heap w !! node = Some n →
  Type_ n = Some t →
  declared t n = l1 ++ field :: l2 →
  (∀ f, f ∈ l1 → dumps_well n f) →
  (Fields n !! fc_Id field = None →
   nodeToData node indent w = (Panic nil_dereference, w)) ∧
  (∀ f err,
     Fields n !! fc_Id field = Some f →
     json_Marshal (Field_Dump f) = inl err →
     nodeToData node indent w
     = (Done ([], Some (fmt_Errorf_v "Could not marshal field: " err)), w)) ∧
  (∀ f raw,
     Fields n !! fc_Id field = Some f →
     json_Marshal (Field_Dump f) = inr raw →
     strings_Cut "." (fc_Id field) = None →
     nodeToData node indent w = (Panic index_out_of_range, w)).
Proof.
  intros Hn Ht Hdecl Hl1.
  destruct (nodeToData_run node indent w n Hn) as (o & Ho & Hrun).
  rewrite Hrun. specialize (Ho w).
  destruct (encode_node_stop (Node_set_Path "" n) t indent l1 field l2 w Ht Hdecl Hl1)
    as (Hnil & Herr & Hdot).
  split; [| split].
  - intros Hf. rewrite (Hnil Hf) in Ho. by injection Ho as <-.
  - intros f err Hf Hm. rewrite (Herr f err Hf Hm) in Ho. by injection Ho as <-.
  - intros f raw Hf Hm Hc. rewrite (Hdot f raw Hf Hm Hc) in Ho. by injection Ho as <-.
Qed.

(** ** More on [dataToNode] *)

Lemma InitFields_keeps n m site w ret w' :
  InitFields n m site w = (Done (ret, None), w') →
  Type_ ret = Type_ n ∧ LocalFields ret = LocalFields n ∧
  Path ret = Path n ∧ Changed ret = Changed n.
Proof.
  unfold InitFields, non_nil. destruct (Type_ n) as [t |] eqn:Ht; [| done]. run.
  destruct (for_range _ init_field ∅ w) as [[[fields | err] | r] w1]; [| done | done].
  run. by intros [= <- _].
Qed.

(** [dataToNode] returns a node or an error, never both, and neither of
    them for empty data only. *)
Lemma dataToNode_shape data getNodeType m site w node err w' :
  dataToNode data getNodeType m site w = (Done (node, err), w') →
  match node, err with
  | Some _, Some _ => False
  | None, None => length data = 0
  | _, _ => length data ≠ 0
  end.
Proof.
  unfold dataToNode. case_decide as Hlen; [by intros [= <- <- _] |].
  destruct (json_Unmarshal_node data) as [e | env]; [by intros [= <- <- _] |].
  rewrite bind_run. destruct (getNodeType _ w) as [[[t [e |]] | r] w1]; run;
    [by intros [= <- <- _] | | done].
  destruct (InitFields _ m site w1) as [[[ret [e |]] | r] w2]; run;
    [by intros [= <- <- _] | | done].
  destruct (non_nil (Type_ ret) w2) as [[t' | r] w3]; run; [| done].
  destruct (for_each _ _ ret w3) as [[ret' | r] w4]; run; [| done].
  by intros [= <- <- _].
Qed.

Lemma for_each_ext {A S} (body1 body2 : A → S → M S) l s w :
  (∀ x, x ∈ l → ∀ s w, body1 x s w = body2 x s w) →
  for_each l body1 s w = for_each l body2 s w.
Proof.
  revert s w. induction l as [| x l IH]; intros s w Hext; [done |].
  cbn [for_each]. rewrite !bind_run, Hext by (by apply elem_of_cons; left).
  destruct (body2 x s w) as [[s' | r] w']; [| done].
  apply IH. intros y Hy. by apply Hext, elem_of_cons; right.
Qed.

(** The loop of [dataToNode] reads the envelope under the two parts of the
    id of the field and nowhere else. *)
Lemma load_field_ext node1 node2 field ret w :
  (∀ group name,
     strings_Cut "." (fc_Id field) = Some (group, name) →
     default ∅ (nj_Fields node1 !! group) !! name
     = default ∅ (nj_Fields node2 !! group) !! name) →
  load_field node1 field ret w = load_field node2 field ret w.
Proof.
  intros Hsame. unfold load_field. rewrite SplitN_dot.
  destruct (strings_Cut "." (fc_Id field)) as [[g nm] |]; [| done].
  unfold lift, index. cbn [lookup list_lookup]. run. by rewrite (Hsame g nm).
Qed.

(** X8: a raw dump under a group and a name that no declared field id
    splits into is ignored: the envelope with it decodes as the envelope
    without it, to the same node or the same failure in the same world. *)
Theorem dataToNode_ignores_undeclared data1 data2 e group name raw
    getNodeType m site w :
  length data1 ≠ 0 →
  length data2 ≠ 0 →
  json_Unmarshal_node data1 = inr e →
  json_Unmarshal_node data2
  = inr (nodeJSON_set_Fields
           (<[group := <[name := raw]> (default ∅ (nj_Fields e !! group))]>
              (nj_Fields e)) e) →
  (∀ t err w1 field,
     getNodeType (nj_Type e) w = (Done (Some t, err), w1) →
     field ∈ declared t (nj_Node e) →
     strings_Cut "." (fc_Id field) ≠ Some (group, name)) →
  dataToNode data2 getNodeType m site w = dataToNode data1 getNodeType m site w.
Proof.
  intros Hlen1 Hlen2 Hjson1 Hjson2 Hundeclared.
  unfold dataToNode. rewrite !decide_False by done. rewrite Hjson1, Hjson2.
  cbn [nj_Node nj_Type nodeJSON_set_Fields]. rewrite !bind_run.
  destruct (getNodeType (nj_Type e) w) as [[[t [err |]] | r] w1] eqn:Hres;
    [done | | done].
  run. destruct (InitFields _ m site w1) as [[[ret [err |]] | r] w2] eqn:Hinit;
    [done | | done].
  run. apply InitFields_keeps in Hinit as (Htype & Hlocal & _). cbn in Htype, Hlocal.
  rewrite Htype. destruct t as [t |]; [| done]. unfold non_nil. run.
  rewrite (for_each_ext (load_field (nodeJSON_set_Fields _ e)) (load_field e)); [done |].
  intros field Hfield ret' w'. apply load_field_ext. intros g nm Hc.
  cbn [nj_Fields nodeJSON_set_Fields]. rewrite lookup2_insert, decide_False; [done |].
  intros [-> ->]. apply (Hundeclared t None w1 field eq_refl); [| done].
  unfold declared. by rewrite <- Hlocal.
Qed.

(** X9: [dataToNode] never returns both a node and an error, and it
    returns neither exactly when the data is empty. *)
Theorem dataToNode_node_or_error data getNodeType m site w node err w' :
  dataToNode data getNodeType m site w = (Done (node, err), w') →
  ¬ (is_Some node ∧ is_Some err) ∧
  (node = None ∧ err = None ↔ length data = 0).
Proof.
  intros Hrun. apply dataToNode_shape in Hrun.
  destruct node as [n |], err as [e |]; [done | | |];
    (split; [intros [[? ?] [? ?]]; congruence |];
     split; [intros [? ?]; first [congruence | done]
            | intros ?; first [done | by destruct Hrun]]).
Qed.

(** X10: what [GetNode] returns on a connected client whose call went
    through: never a node with an error, and [(nil, nil)] exactly when the
    reply was empty. *)
Theorem GetNode_node_or_error s site path w reply node err w' :
  Error s = None →
  rpc_Call (trace w) (Monsti_GetNode site path) = inr reply →
  GetNode s site path w = (Done (node, err), w') →
  ¬ (is_Some node ∧ is_Some err) ∧
  (node = None ∧ err = None ↔ length reply = 0).
Proof.
  intros He Hr. unfold GetNode. rewrite He, bind_run.
  unfold RPCClient_Call at 1. rewrite Hr. rewrite bind_run.
  destruct (dataToNode reply _ s site _) as [[[n e] | r] w1] eqn:Hd; [| done].
  apply dataToNode_shape in Hd.
  destruct n as [n |], e as [e |]; [done | | |]; run; intros [= <- <- _];
    (split; [intros [[? ?] [? ?]]; congruence |];
     split; [intros [? ?]; first [congruence | done]
            | intros ?; first [done | by destruct Hd]]).
Qed.

(** [dataToNode] up to its loop, when the envelope is read, the type
    resolved and every declared kind of field can be built. *)
Lemma dataToNode_loop data node t getNodeType m site w w1 :
  length data ≠ 0 →
  json_Unmarshal_node data = inr node →
  getNodeType (nj_Type node) w = (Done (Some t, None), w1) →
  (∀ f, f ∈ declared t (nj_Node node) → ∃ f0, Field_new f = inr f0) →
  ∃ fields,
    (∀ field, field ∈ declared t (nj_Node node) → is_Some (fields !! fc_Id field)) ∧
    dataToNode data getNodeType m site w
    = match for_each (declared t (nj_Node node)) (load_field node)
              (Node_set_Fields fields (Node_set_Type (Some t) (nj_Node node))) w1 with
      | (Done ret, w') => (Done (Some ret, None), w')
      | (Panic r, w') => (Panic r, w')
      end.
Proof.
  intros Hlen Hjson Hres Hnew.
  set (ret0 := Node_set_Type (Some t) (nj_Node node)).
  destruct (InitFields_run ret0 t m site w1 eq_refl Hnew) as (fields & Hinit & _ & Hin).
  exists fields. split.
  { intros f Hf. destruct (Hin f Hf) as (? & f0 & _ & _ & _ & ->). by eexists. }
  unfold dataToNode. rewrite decide_False by done. rewrite Hjson. run.
  rewrite Hres. run. fold ret0. rewrite Hinit. run. unfold non_nil.
  cbn [Type_ ret0 Node_set_Fields Node_set_Type]. run.
  change (nt_Fields t ++ LocalFields (Node_set_Fields fields ret0))
    with (declared t (nj_Node node)).
  by destruct (for_each _ _ _ w1) as [[ret | r] w'].
Qed.

(** The loop of [dataToNode] logs the loads of the fields that have a raw
    dump, in the order of the fields. *)
Lemma load_loop_trace node l ret w :
  (∀ field, field ∈ l → is_Some (strings_Cut "." (fc_Id field))) →
  (∀ field, field ∈ l → is_Some (Fields ret !! fc_Id field)) →
  ∃ ret',
    for_each l (load_field node) ret w
    = (Done ret', {| heap := heap w; trace := trace w ++ omap (load_event node) l;
                     ticks := ticks w |}).
Proof.
  revert ret w. induction l as [| field l IH]; intros ret w Hcut Hheld.
  - exists ret. cbn. rewrite app_nil_r. by destruct w.
  - destruct (Hheld field) as [f Hf]; [by apply elem_of_cons; left |].
    assert (Hcut' : ∀ field', field' ∈ l → is_Some (strings_Cut "." (fc_Id field')))
      by (intros ? ?; apply Hcut; by apply elem_of_cons; right).
    cbn [for_each omap list_omap]. rewrite bind_run, (load_field_run _ _ _ _ f);
      [| by apply Hcut, elem_of_cons; left | done].
    unfold load_event at 1.
    destruct (raw_of (nj_Fields node) (fc_Id field)) as [raw |].
    + destruct (IH (Node_set_Fields (<[fc_Id field := (Field_Load f raw).1]> (Fields ret))
                      ret) (World_log (EvLoad (fc_Id field) raw) w) Hcut')
        as [ret' Hrun].
      { intros field' Hin. cbn.
        destruct (decide (fc_Id field' = fc_Id field)) as [-> | Hne].
        - rewrite lookup_insert_eq. by eexists.
        - rewrite lookup_insert_ne by done. by apply Hheld, elem_of_cons; right. }
      exists ret'. rewrite Hrun. cbn. by rewrite <- app_assoc.
    + destruct (IH ret w Hcut') as [ret' Hrun].
      { intros field' Hin. by apply Hheld, elem_of_cons; right. }
      by exists ret'.
Qed.

(** X11: when [dataToNode] decodes an envelope, it calls [Load] once for
    each declared field that has a raw dump in the envelope, with that
    dump, in the order of the declaration (the fields of the type, then
    the local ones), and it logs nothing else after the resolver. *)
Theorem dataToNode_loads_in_order data node t getNodeType m site w w1 :
  length data ≠ 0 →
  json_Unmarshal_node data = inr node →
  getNodeType (nj_Type node) w = (Done (Some t, None), w1) →
  (∀ f, f ∈ declared t (nj_Node node) →
     is_Some (strings_Cut "." (fc_Id f)) ∧ ∃ f0, Field_new f = inr f0) →
  ∃ ret w',
    dataToNode data getNodeType m site w = (Done (Some ret, None), w') ∧
    trace w' = trace w1 ++ omap (load_event node) (declared t (nj_Node node)).
Proof.
  intros Hlen Hjson Hres Hdecl.
  destruct (dataToNode_loop data node t getNodeType m site w w1 Hlen Hjson Hres)
    as (fields & Hheld & ->).
  { intros f Hf. by apply Hdecl. }
  destruct (load_loop_trace node (declared t (nj_Node node))
              (Node_set_Fields fields (Node_set_Type (Some t) (nj_Node node))) w1)
    as [ret ->]; [by intros f Hf; apply Hdecl | done |].
  by eexists _, _.
Qed.

(** X12: a declared field id without a ["."] makes [dataToNode] panic
    with an index out of range once the loop reaches it, whatever the
    envelope holds. *)
Theorem dataToNode_undotted_id_panics data node t getNodeType m site w w1
    l1 field l2 :
  length data ≠ 0 →
  json_Unmarshal_node data = inr node →
  getNodeType (nj_Type node) w = (Done (Some t, None), w1) →
  (∀ f, f ∈ declared t (nj_Node node) → ∃ f0, Field_new f = inr f0) →
  declared t (nj_Node node) = l1 ++ field :: l2 →
  (∀ f, f ∈ l1 → is_Some (strings_Cut "." (fc_Id f))) →
  strings_Cut "." (fc_Id field) = None →
  ∃ w', dataToNode data getNodeType m site w = (Panic index_out_of_range, w').
Proof.
  intros Hlen Hjson Hres Hnew Hdecl Hl1 Hcut.
  destruct (dataToNode_loop data node t getNodeType m site w w1 Hlen Hjson Hres Hnew)
    as (fields & Hheld & ->).
  rewrite Hdecl, for_each_app.
  destruct (load_loop_trace node l1
              (Node_set_Fields fields (Node_set_Type (Some t) (nj_Node node))) w1 Hl1)
    as [ret ->].
  { intros f Hf. apply Hheld. rewrite Hdecl. apply elem_of_app. by left. }
  cbn [for_each]. rewrite bind_run. unfold load_field at 1.
  rewrite SplitN_dot, Hcut. unfold lift, index. cbn [lookup list_lookup]. run.
  by eexists.
Qed.

(** X13: when the broker cannot give the type of a stored node, [GetNode]
    on a connected client returns no node and the cause under the three
    wrappers of [GetNodeType], [dataToNode] and [GetNode]; it has made the
    two calls and no other. *)
Theorem GetNode_unknown_type s site path w reply node cause :
  Error s = None →
  rpc_Call (trace w) (Monsti_GetNode site path) = inr reply →
  length reply ≠ 0 →
  json_Unmarshal_node reply = inr node →
  rpc_Call (trace w ++ [EvCall (Monsti_GetNode site path)])
    (Monsti_GetNodeType (nj_Type node)) = inl cause →
  GetNode s site path w
  = (Done (None,
           Some (errors_New
                   ("service: Could not convert node: " +:+
                    "Could not get node type " +:+ strconv_Quote (nj_Type node) +:+ ": " +:+
                    "service: Error calling GetNodeType: " +:+ Error_msg cause))),
     World_log (EvCall (Monsti_GetNodeType (nj_Type node)))
       (World_log (EvCall (Monsti_GetNode site path)) w)).
Proof.
  intros He Hr Hlen Hjson Hcause. unfold GetNode. rewrite He, bind_run.
  unfold RPCClient_Call at 1. rewrite Hr. rewrite bind_run.
  unfold dataToNode. rewrite decide_False by done. rewrite Hjson. run.
  unfold GetNodeType at 1. rewrite He, bind_run. unfold RPCClient_Call at 1.
  cbn [trace World_log]. rewrite Hcause. run.
  unfold fmt_Errorf_v, errors_New. cbn [Error_msg].
  by rewrite !append_assoc.
Qed.

(** ** Writing a node and reading it back *)




(** ** [GetChildren] *)



(** ** Signals *)




(** X18: after [AddSignalHandler] has connected a handler to a signal, the
    client holds that handler under the name of the signal, in the place
    of an earlier one, and its other handlers as before; the next
    [WaitSignal] that is delivered this signal runs this handler: its
    error comes back wrapped, or its result is reported with
    [Monsti.FinishSignal]. *)
Theorem AddSignalHandler_then_WaitSignal s name handle w s' w1 w2 args arg :
  Error s = None →
  AddSignalHandler s name handle w = (Done (None, s'), w1) →
  rpc_Call (trace w2) (Monsti_WaitSignal (Client_Id s)) = inr (name, args) →
  gob_Decode args = inr arg →
  SignalHandlers s' = <[name := handle]> (SignalHandlers s) ∧
  ∃ r w3,
    WaitSignal s' w2 = (Done r, w3) ∧
    handler_calls (trace w3) = handler_calls (trace w2) ++ [EvHandle name arg] ∧
    (∀ ret err,
       handle arg = (ret, Some err) →
       r = Some (fmt_Errorf_v
                   ("service: Signal handler for " +:+ name +:+ " returned error: ")
                   err)) ∧
    (∀ ret buffer,
       handle arg = (ret, None) →
       gob_Encode ret = inr buffer →
       EvCall (Monsti_FinishSignal (Client_Id s) buffer) ∈ trace w3).
Proof.
  intros He Hadd Hr Hd. unfold AddSignalHandler in Hadd. rewrite He, bind_run in Hadd.
  unfold RPCClient_Call at 1 in Hadd.
  destruct (rpc_Call (trace w) _) as [err | ack]; [done |].
  run_in Hadd. injection Hadd as <- _. split; [done |].
  unfold WaitSignal. cbn [Error Client_Id SignalHandlers MonstiClient_set_SignalHandlers].
  rewrite He, bind_run. unfold RPCClient_Call at 1. rewrite Hr. run.
  cbn [fst snd]. rewrite Hd, lookup_insert_eq. unfold non_nil, log. run.
  destruct (handle arg) as [ret [err |]] eqn:Hhandle.
  - run. eexists _, _. split; [reflexivity |]. cbn [trace World_log]. split.
    + unfold handler_calls. rewrite !list.filter_app, !filter_cons, !filter_nil.
      cbn. by rewrite app_nil_r.
    + split; [by intros ? ? [= _ <-] | by intros ? ? [=]].
  - destruct (gob_Encode ret) as [err | buffer] eqn:Henc.
    + run. eexists _, _. split; [reflexivity |]. cbn [trace World_log]. split.
      * unfold handler_calls. rewrite !list.filter_app, !filter_cons, !filter_nil.
        cbn. by rewrite app_nil_r.
      * split; [by intros ? ? [=] |]. intros ? ? [= <-] Hb. congruence.
    + rewrite bind_run. unfold RPCClient_Call at 1.
      destruct (rpc_Call _ (Monsti_FinishSignal _ _)) as [err | ack'];
        (run; eexists _, _; split; [reflexivity |]; cbn [trace World_log]; split;
         [ unfold handler_calls;
           rewrite !list.filter_app, !filter_cons, !filter_nil; cbn;
           by rewrite !app_nil_r
         | split; [by intros ? ? [=] |];
           intros ? ? [= <-] Hb; rewrite Henc in Hb; injection Hb as <-;
           apply elem_of_app; right; apply list_elem_of_singleton; done ]).
Qed.

(** ** Site configuration *)

(** X19: when the reply is an object with one entry whose value is not
    null, [GetSiteConfig] copies that value out, whatever the name of the
    entry: the name asked for is not compared with it. *)
Theorem GetSiteConfig_single_entry s site name out w reply key value :
  Error s = None →
  rpc_Call (trace w) (Monsti_GetSiteConfig site name) = inr reply →
  length reply ≠ 0 →
  json_Unmarshal_map reply = inr {[ key := Some value ]} →
  (∀ k, k ∈ reflect_MapKeys {[ key := Some value ]}
        ↔ is_Some (({[ key := Some value ]} : gmap string (option Value)) !! k)) →
  GetSiteConfig s site name out w
  = (Done (None, value), World_log (EvCall (Monsti_GetSiteConfig site name)) w).
Proof.
  intros He Hr Hlen Hjson Hkeys. unfold GetSiteConfig. rewrite He, bind_run.
  unfold RPCClient_Call at 1. rewrite Hr. run.
  unfold lift, getConfig. rewrite decide_False by done. rewrite Hjson.
  destruct (reflect_MapKeys {[ key := Some value ]}) as [| k keys] eqn:Hl.
  - assert (Hin : key ∈ @nil string).
    { apply Hkeys. rewrite lookup_singleton_eq. by eexists. }
    by apply elem_of_nil in Hin.
  - assert (Hk : is_Some (({[ key := Some value ]} : gmap string (option Value)) !! k))
      by (apply Hkeys, elem_of_cons; by left).
    destruct Hk as [v Hv]. apply lookup_singleton_Some in Hv as [<- <-].
    unfold index. cbn [lookup list_lookup]. by rewrite lookup_singleton_eq.
Qed.

(** X20: [GetSiteConfig] leaves [out] as it was whenever it returns an
    error; when [out] has changed, the call went through and the new value
    is one the decoded reply holds under one of its names. *)
Theorem GetSiteConfig_out s site name out w err out' w' :
  GetSiteConfig s site name out w = (Done (err, out'), w') →
  (is_Some err → out' = out) ∧
  (out' ≠ out →
   ∃ reply object key,
     rpc_Call (trace w) (Monsti_GetSiteConfig site name) = inr reply ∧
     json_Unmarshal_map reply = inr object ∧
     object !! key = Some (Some out')).
Proof.
  unfold GetSiteConfig. destruct (Error s) as [e |]; [by intros [= <- <- _] |].
  rewrite bind_run. unfold RPCClient_Call at 1.
  destruct (rpc_Call (trace w) _) as [cause | reply] eqn:Hr; run;
    [by intros [= <- <- _] |].
  unfold lift, getConfig. case_decide; [by intros [= <- <- _] |].
  destruct (json_Unmarshal_map reply) as [cause | object] eqn:Hjson;
    [by intros [= <- <- _] |].
  destruct (index (reflect_MapKeys object) 0) as [key | r]; [| done].
  destruct (object !! key) as [[value |] |] eqn:Hv; cbn [default];
    intros [= <- <- _]; (split; [by intros [? ?] |]); try done.
  intros _. by exists reply, object, key.
Qed.

(** ** A transport that is down *)


End Coverage.

(** ** More of the code, on concrete inputs *)

Import Store.

(** The action ["edit"] on the node ["/foo"], and ["login"] on the root. *)
Lemma splitAction_action_witness :
  splitAction "/foo/@@edit" = Done ("/foo", "edit") ∧
  splitAction "/@@login" = Done ("/", "login").
Proof.
  split.
  - apply (splitAction_action "/foo" "edit"); [discriminate | reflexivity].
  - apply (splitAction_action EmptyString "login"); [discriminate | reflexivity].
Defined.

(** A path without an action. *)
Lemma splitAction_no_action_witness :
  splitAction "/foo/bar" = Done ("/foo/bar", EmptyString).
Proof.
  apply (splitAction_no_action "/foo/bar" "bar").
  - reflexivity.
  - right. exists "/foo". reflexivity.
  - intros [_ Hat]. discriminate Hat.
Defined.

(** A path of the site. *)
Lemma splitAction_rooted_witness :
  ∃ nodePath action,
    splitAction "/blog/@@add" = Done (nodePath, action) ∧
    nodePath ≠ EmptyString ∧
    strings_Cut "/" action = None ∧
    (action = EmptyString → nodePath = "/blog/@@add") ∧
    (action ≠ EmptyString →
     ∃ pre, "/blog/@@add" = pre +:+ "/@@" +:+ action ∧
            nodePath = if decide (pre = EmptyString) then "/" else pre).
Proof.
  apply (splitAction_rooted "/blog/@@add"). by eexists.
Defined.

(** An action without a path before it. *)
Lemma splitAction_unrooted_panics_witness :
  splitAction "@@edit" = Panic slice_out_of_range.
Proof.
  apply (splitAction_unrooted_panics "edit"); [discriminate | reflexivity].
Defined.

(** The envelope of ["/about"]. *)
Lemma nodeToData_envelope_witness :
  ∃ outNode,
    json_Marshal_node outNode = inr about_data ∧
    nj_Node outNode = Node_set_Path "" about ∧
    nj_Type outNode = "page" ∧
    raw_of (nj_Fields outNode) "core.title" = Some (json_quote "About Us") ∧
    default ∅ (nj_Fields outNode !! "core") !! "tags" = None.
Proof.
  destruct (nodeToData_envelope 1%positive false world0 about page about_data world0)
    as (outNode & Hjson & Hnode & Htype & Hheld & Honly);
    [reflexivity | reflexivity | vm_compute; reflexivity |].
  exists outNode. split; [exact Hjson |]. split; [exact Hnode |].
  split; [exact Htype |]. split.
  - destruct (Hheld core_title) as (f & raw & Hf & Hraw & Hin);
      [apply elem_of_cons; by left |].
    injection Hf as <-. injection Hraw as <-. exact Hin.
  - destruct (default ∅ (nj_Fields outNode !! "core") !! "tags") as [raw |] eqn:Htags;
      [| reflexivity].
    destruct (Honly "core" "tags" raw Htags) as (field & Hfield & Hcut).
    apply elem_of_cons in Hfield as [-> | Hfield]; [discriminate Hcut |].
    apply elem_of_cons in Hfield as [-> | Hfield]; [discriminate Hcut |].
    by apply elem_of_nil in Hfield.
Defined.


(** The node [stub] holds no body: writing it is a nil dereference. *)
Lemma nodeToData_first_obstacle_witness :
  nodeToData 2%positive false world1 = (Panic nil_dereference, world1).
Proof.
  apply (nodeToData_first_obstacle 2%positive false world1 stub page
           [core_title] core_body []).
  - reflexivity.
  - reflexivity.
  - reflexivity.
  - intros f Hf. apply list_elem_of_singleton in Hf as ->. split; by eexists.
  - reflexivity.
Defined.

(** The raw dump under ["core"] and ["tags"], which the type ["page"] does
    not declare, changes nothing. *)
Lemma dataToNode_ignores_undeclared_witness :
  dataToNode tagged_data (GetNodeType worker) worker "example" world0
  = dataToNode untitled_data (GetNodeType worker) worker "example" world0.
Proof.
  apply (dataToNode_ignores_undeclared untitled_data tagged_data (payload untitled)
           "core" "tags" (json_quote "a,b")).
  - vm_compute. discriminate.
  - vm_compute. discriminate.
  - apply demo_json_round_trip. by left.
  - transitivity (inr (B := nodeJSON) (A := error) (payload tagged));
      [apply demo_json_round_trip; by left |].
    vm_compute. reflexivity.
  - intros t err w1 field [= <- _ _] Hfield.
    apply elem_of_cons in Hfield as [-> | Hfield]; [discriminate |].
    apply elem_of_cons in Hfield as [-> | Hfield]; [discriminate |].
    by apply elem_of_nil in Hfield.
Defined.

(** The data of ["/about"] decodes to a node, without an error. *)
Lemma dataToNode_node_or_error_witness :
  ∃ node w',
    dataToNode about_data (GetNodeType worker) worker "example" world0
    = (Done (Some node, None), w') ∧
    ¬ (is_Some (Some node) ∧ is_Some (@None error)) ∧
    (Some node = None ∧ @None error = None ↔ length about_data = 0).
Proof.
  assert (Hrun : dataToNode about_data (GetNodeType worker) worker "example" world0
                 = (Done (Some (Node_set_Path "" about), None),
                    (dataToNode about_data (GetNodeType worker) worker "example"
                       world0).2))
    by (vm_compute; reflexivity).
  eexists _, _. split; [exact Hrun |].
  exact (dataToNode_node_or_error _ _ _ _ _ _ _ _ Hrun).
Defined.

(** The broker with a store holds ["/about"]. *)
Lemma GetNode_node_or_error_witness :
  ∃ node w',
    GetNode (X := store_externals) worker "example" "/about" world0
    = (Done (Some node, None), w') ∧
    ¬ (is_Some (Some node) ∧ is_Some (@None error)) ∧
    (Some node = None ∧ @None error = None ↔ length about_data = 0).
Proof.
  assert (Hrun : GetNode (X := store_externals) worker "example" "/about" world0
                 = (Done (Some (Node_set_Path "" about), None),
                    (GetNode (X := store_externals) worker "example" "/about"
                       world0).2))
    by (vm_compute; reflexivity).
  eexists _, _. split; [exact Hrun |].
  exact (GetNode_node_or_error (X := store_externals) worker "example" "/about" world0
           about_data _ _ _ eq_refl eq_refl Hrun).
Defined.

(** The envelope with a title and no body: one load, of the title. *)
Lemma dataToNode_loads_in_order_witness :
  ∃ ret w',
    dataToNode untitled_data (GetNodeType worker) worker "example" world0
    = (Done (Some ret, None), w') ∧
    trace w' = [EvCall (Monsti_GetNodeType "page");
                EvLoad "core.title" (json_quote "About Us")].
Proof.
  apply (dataToNode_loads_in_order untitled_data (payload untitled) page
           (GetNodeType worker) worker "example" world0
           (World_log (EvCall (Monsti_GetNodeType "page")) world0)).
  - vm_compute. discriminate.
  - apply demo_json_round_trip. by left.
  - reflexivity.
  - intros f Hf. split; [| by eexists].
    apply elem_of_cons in Hf as [-> | Hf]; [by eexists |].
    apply elem_of_cons in Hf as [-> | Hf]; [by eexists |].
    by apply elem_of_nil in Hf.
Defined.

(** The local field ["summary"] of the envelope [flat] has an id in one
    part. *)
Lemma dataToNode_undotted_id_panics_witness :
  ∃ w', dataToNode flat_data (GetNodeType worker) worker "example" world0
        = (Panic index_out_of_range, w').
Proof.
  apply (dataToNode_undotted_id_panics flat_data (payload flat) page
           (GetNodeType worker) worker "example" world0
           (World_log (EvCall (Monsti_GetNodeType "page")) world0)
           [core_title; core_body] summary []).
  - vm_compute. discriminate.
  - apply demo_json_round_trip. by left.
  - reflexivity.
  - intros f _. by eexists.
  - reflexivity.
  - intros f Hf.
    apply elem_of_cons in Hf as [-> | Hf]; [by eexists |].
    apply elem_of_cons in Hf as [-> | Hf]; [by eexists |].
    by apply elem_of_nil in Hf.
  - reflexivity.
Defined.

(** The broker holds ["/draft"], of the type ["note"], which it does not
    know. *)
Lemma GetNode_unknown_type_witness :
  GetNode (X := store_externals) worker "example" "/draft" world0
  = (Done (None,
           Some (errors_New
                   ("service: Could not convert node: Could not get node type " +:+
                    demo_Quote "note" +:+
                    ": service: Error calling GetNodeType: unknown node type"))),
     World_log (EvCall (Monsti_GetNodeType "note"))
       (World_log (EvCall (Monsti_GetNode "example" "/draft")) world0)).
Proof.
  apply (GetNode_unknown_type (X := store_externals) worker "example" "/draft" world0
           draft_data (payload draft) (errors_New "unknown node type")).
  - reflexivity.
  - reflexivity.
  - vm_compute. discriminate.
  - apply demo_json_round_trip. by left.
  - reflexivity.
Defined.





(** The client [idle] connects a handler to ["beforeSave"] and waits: the
    handler is run on the signal the broker delivers. *)
Lemma AddSignalHandler_then_WaitSignal_witness :
  ∃ s' w1 r w3,
    AddSignalHandler idle "beforeSave" (λ v : string, (v, None)) world0
    = (Done (None, s'), w1) ∧
    WaitSignal s' w1 = (Done r, w3) ∧
    handler_calls (trace w3) = [EvHandle "beforeSave" "/x"] ∧
    EvCall (Monsti_FinishSignal "idle" (String.list_byte_of_string "/x")) ∈ trace w3.
Proof.
  destruct (AddSignalHandler_then_WaitSignal idle "beforeSave" (λ v : string, (v, None))
              world0
              (MonstiClient_set_SignalHandlers
                 (<["beforeSave" := λ v : string, (v, None)]> (SignalHandlers idle)) idle)
              (World_log (EvCall (Monsti_ConnectSignal "idle" "beforeSave")) world0)
              (World_log (EvCall (Monsti_ConnectSignal "idle" "beforeSave")) world0)
              (String.list_byte_of_string "/x") "/x")
    as (_ & r & w3 & Hwait & Hcalls & _ & Hfinish);
    [reflexivity .. |].
  eexists _, _, r, w3. split; [reflexivity |]. split; [exact Hwait |].
  split; [exact Hcalls |].
  apply (Hfinish "/x" (String.list_byte_of_string "/x")); reflexivity.
Defined.

(** The broker with a store sends an object with the one entry
    ["title"], also when asked for another name. *)
Lemma GetSiteConfig_single_entry_witness :
  GetSiteConfig (X := store_externals) worker "example" "name" "unset" world0
  = (Done (None, "Monsti"),
     World_log (EvCall (Monsti_GetSiteConfig "example" "name")) world0).
Proof.
  apply (GetSiteConfig_single_entry (X := store_externals) worker "example" "name"
           "unset" world0 site_title "title" "Monsti").
  - reflexivity.
  - reflexivity.
  - vm_compute. discriminate.
  - vm_compute. reflexivity.
  - intros k. cbn [reflect_MapKeys store_externals].
    rewrite map_to_list_singleton. cbn [fmap list_fmap fst].
    rewrite list_elem_of_singleton. split.
    + intros ->. rewrite lookup_singleton_eq. by eexists.
    + intros [v Hv]. by apply lookup_singleton_Some in Hv as [<- _].
Defined.

(** The value copied out is in the reply. *)
Lemma GetSiteConfig_out_witness :
  ∃ reply object key,
    rpc_Call (Externals := store_externals) (trace world0)
      (Monsti_GetSiteConfig "example" "title") = inr reply ∧
    json_Unmarshal_map (Externals := store_externals) reply = inr object ∧
    object !! key = Some (Some "Monsti").
Proof.
  apply (proj2 (GetSiteConfig_out (X := store_externals) worker "example" "title"
                  "unset" world0 None "Monsti"
                  (World_log (EvCall (Monsti_GetSiteConfig "example" "title")) world0)
                  ltac:(vm_compute; reflexivity))).
  discriminate.
Defined.

